(** * Hot-search service: the ranked-term store of
      [server/core/services/hotSearchSQLite.ts]

    The development embeds [HotSearchSQLiteService] together with the two
    database handles it can run on: the better-sqlite3 handle opened by
    [initDatabase] and the object literal built by [initMemoryFallback].

    Conventions.
    - A JavaScript string is the list of its UTF-16 code units.
    - JavaScript numbers that hold scores, timestamps, limits and row counts
      are integers ([Z]); [Date.now()] is an argument of [recordSearch].
    - A statement object is a record of optional methods; calling a method
      the object does not have throws, as it does in JavaScript.
    - [console] output is kept as a list of events, oldest first.
    - A freshly constructed service starts from an empty store; [getStats]
      and [close] are outside this development. *)

From Stdlib Require Import String Ascii DecimalString.
From Stdlib Require Import List ZArith NArith Lia Bool.
From Stdlib Require Import Sorting.Sorted Sorting.Permutation QArith Qround.
Import ListNotations.
Open Scope Z_scope.

(* ================================================================== *)
(** ** JavaScript strings *)

Definition jsstring := list N.

(** An ASCII literal of the source, as code units. *)
Definition lit (s : string) : jsstring :=
  map N_of_ascii (list_ascii_of_string s).

Definition jsstring_eqb (a b : jsstring) : bool :=
  if list_eq_dec N.eq_dec a b then true else false.

(** [a] is a prefix of [s], code unit by code unit. *)
Fixpoint startsWith (a s : jsstring) : bool :=
  match a, s with
  | [], _ => true
  | _ :: _, [] => false
  | x :: a', y :: s' => N.eqb x y && startsWith a' s'
  end.

(** [String.prototype.includes]. *)
Fixpoint includes (s needle : jsstring) : bool :=
  startsWith needle s ||
  match s with
  | [] => false
  | _ :: s' => includes s' needle
  end.

(** WhiteSpace and LineTerminator code units, the ones [trim] strips. *)
Definition isWhiteSpace (c : N) : bool :=
  existsb (N.eqb c)
    [9; 10; 11; 12; 13; 32; 160; 5760; 8232; 8233; 8239; 8287; 12288; 65279]%N
  || ((8192 <=? c) && (c <=? 8202))%N.

Fixpoint trimStart (s : jsstring) : jsstring :=
  match s with
  | [] => []
  | c :: s' => if isWhiteSpace c then trimStart s' else s
  end.

Definition trimEnd (s : jsstring) : jsstring := rev (trimStart (rev s)).

(** [String.prototype.trim]. *)
Definition trim (s : jsstring) : jsstring := trimEnd (trimStart s).

(* ================================================================== *)
(** ** Regular expressions of the moderation filter

    The two patterns are alternations of literal strings under the [i]
    flag, without [u] and without [g], so [test] is stateless. *)

Record RegExp := {
  alternatives : list jsstring;
  ignoreCase : bool
}.

(** Canonicalize of the RegExp semantics (non-unicode mode): a code unit
    is replaced by its upper case, except that a code unit at or above 128
    is never mapped below 128. The case table above 127 belongs to the
    engine; it maps no code unit onto an ASCII letter (the guard just
    quoted) nor onto a CJK ideograph, which are the only code units of
    the patterns below, so it is left as the identity here. *)
Definition Canonicalize (ic : bool) (ch : N) : N :=
  if ic then (if ((97 <=? ch) && (ch <=? 122))%N then ch - 32 else ch)%N
  else ch.

(** The literal [pat] matches at the start of [s]. *)
Fixpoint matchLiteral (ic : bool) (pat s : jsstring) : bool :=
  match pat, s with
  | [], _ => true
  | _ :: _, [] => false
  | p :: pat', c :: s' =>
      N.eqb (Canonicalize ic p) (Canonicalize ic c) && matchLiteral ic pat' s'
  end.

Definition matchHere (r : RegExp) (s : jsstring) : bool :=
  existsb (fun alt => matchLiteral (ignoreCase r) alt s) (alternatives r).

(** [RegExp.prototype.test]: some start index has a match. *)
Fixpoint test (r : RegExp) (s : jsstring) : bool :=
  matchHere r s ||
  match s with
  | [] => false
  | _ :: s' => test r s'
  end.

(* ================================================================== *)
(** ** Arrays: [sort] and [slice] *)

Section Arrays.
Context {A : Type}.

Fixpoint insert_sorted (leb : A -> A -> bool) (x : A) (l : list A) : list A :=
  match l with
  | [] => [x]
  | y :: l' => if leb x y then x :: l else y :: insert_sorted leb x l'
  end.

(** A stable sort: an element moves behind a later one only when [leb]
    says it does not come first. *)
Definition stable_sort (leb : A -> A -> bool) (l : list A) : list A :=
  fold_right (insert_sorted leb) [] l.

(** [Array.prototype.sort(comparefn)]: stable, [a] stays before [b]
    unless [comparefn(a, b) > 0]. *)
Definition js_sort (comparefn : A -> A -> Z) (l : list A) : list A :=
  stable_sort (fun a b => comparefn a b <=? 0) l.

(** A relative index of [slice], clamped into [0, len]. *)
Definition relative_index (len i : Z) : Z :=
  if i <? 0 then Z.max (len + i) 0 else Z.min i len.

(** [Array.prototype.slice(start, end)]; [None] is an omitted [end]. *)
Definition js_slice (start : Z) (end_ : option Z) (l : list A) : list A :=
  let len := Z.of_nat (length l) in
  let k := relative_index len start in
  let final := match end_ with
               | None => len
               | Some e => relative_index len e
               end in
  firstn (Z.to_nat (final - k)) (skipn (Z.to_nat k) l).
End Arrays.

(* ================================================================== *)
(** ** Data model *)

Record HotSearchItem := {
  term : jsstring;
  score : Z;
  lastSearched : Z;
  createdAt : Z
}.

Definition MAX_ENTRIES : Z := 50.

(** Arguments bound to a statement. *)
Inductive JsArg :=
| JStr (s : jsstring)
| JNum (n : Z).

(** What [stmt.run] hands back: [Some n] is [{ changes: n }], [None] is
    [undefined]. *)
Definition RunResult := option Z.

(** A prepared statement over a store of type [S]. *)
Record Statement (S : Type) := {
  run : option (list JsArg -> S -> S * RunResult);
  all : option (Z -> S -> list HotSearchItem);
  get : option (S -> option Z)
}.
Arguments run {S} _.
Arguments all {S} _.
Arguments get {S} _.

(** ** The SQL texts of the service, as the template literals have them *)

Definition SQL_UPSERT : jsstring := lit "
        INSERT INTO hot_searches (term, score, last_searched, created_at)
        VALUES (?, 1, ?, ?)
        ON CONFLICT(term) DO UPDATE SET
          score = score + 1,
          last_searched = ?
      ".

Definition SQL_SELECT_TOP : jsstring := lit "
        SELECT term, score, last_searched as lastSearched, created_at as createdAt
        FROM hot_searches
        ORDER BY score DESC, last_searched DESC
        LIMIT ?
      ".

Definition SQL_CLEANUP : jsstring := lit "
        DELETE FROM hot_searches
        WHERE id NOT IN (
          SELECT id FROM hot_searches
          ORDER BY score DESC, last_searched DESC
          LIMIT ?
        )
      ".

Definition SQL_CLEAR : jsstring := lit "DELETE FROM hot_searches".

Definition SQL_DELETE_TERM : jsstring :=
  lit "DELETE FROM hot_searches WHERE term = ?".

Definition SQL_COUNT : jsstring :=
  lit "SELECT COUNT(*) as total FROM hot_searches".

(* ================================================================== *)
(** ** The memory fallback: [initMemoryFallback]

    [memoryStore] is a [Map<string, HotSearchItem>]: it iterates in
    insertion order, [set] on a present key keeps the key's place, and
    [delete] removes the key. *)

Definition MemoryStore := list (jsstring * HotSearchItem).

Fixpoint map_get (k : jsstring) (m : MemoryStore) : option HotSearchItem :=
  match m with
  | [] => None
  | (k', v) :: m' => if jsstring_eqb k' k then Some v else map_get k m'
  end.

Fixpoint map_set (k : jsstring) (v : HotSearchItem) (m : MemoryStore)
  : MemoryStore :=
  match m with
  | [] => [(k, v)]
  | (k', v') :: m' =>
      if jsstring_eqb k' k then (k', v) :: m' else (k', v') :: map_set k v m'
  end.

Fixpoint map_delete (k : jsstring) (m : MemoryStore) : MemoryStore :=
  match m with
  | [] => []
  | (k', v') :: m' =>
      if jsstring_eqb k' k then m' else (k', v') :: map_delete k m'
  end.

Definition map_has (k : jsstring) (m : MemoryStore) : bool :=
  match map_get k m with Some _ => true | None => false end.

Definition map_values (m : MemoryStore) : list HotSearchItem := map snd m.

Definition map_size (m : MemoryStore) : Z := Z.of_nat (length m).

(** The comparator of both [sort] calls of the mock. *)
Definition compareItems (a b : HotSearchItem) : Z :=
  if negb (score b =? score a) then score b - score a
  else lastSearched b - lastSearched a.

(** [existing.score += 1; existing.lastSearched = now]. *)
Definition touch (existing : HotSearchItem) (now : Z) : HotSearchItem :=
  {| term := term existing;
     score := score existing + 1;
     lastSearched := now;
     createdAt := createdAt existing |}.

(** Each [run] below reads its arguments in the shape its call site
    passes; other shapes are never passed by the service and leave the
    store as it is. *)

(** [run] of the INSERT branch. The object found by [get] is updated in
    place, so the entry keeps its key and its position. The second and
    third arguments are not read. *)
Definition mem_insert_run (args : list JsArg) (m : MemoryStore)
  : MemoryStore * RunResult :=
  match args with
  | [JStr k; JNum _; JNum _; JNum now] =>
      match map_get k m with
      | Some existing => (map_set k (touch existing now) m, None)
      | None =>
          (map_set k {| term := k; score := 1;
                        lastSearched := now; createdAt := now |} m,
           None)
      end
  | _ => (m, None)
  end.

(** [all] of the SELECT branch. *)
Definition mem_select_all (limit : Z) (m : MemoryStore) : list HotSearchItem :=
  map (fun item => {| term := term item; score := score item;
                      lastSearched := lastSearched item;
                      createdAt := createdAt item |})
      (js_slice 0 (Some limit) (js_sort compareItems (map_values m))).

(** [run] of the [WHERE term = ?] branch. *)
Definition mem_delete_term_run (args : list JsArg) (m : MemoryStore)
  : MemoryStore * RunResult :=
  match args with
  | [JStr k] =>
      let deleted := map_has k m in
      (map_delete k m, Some (if deleted then 1 else 0))
  | _ => (m, None)
  end.

(** [run] of the branch for the exact text [DELETE FROM hot_searches]. *)
Definition mem_clear_run (args : list JsArg) (m : MemoryStore)
  : MemoryStore * RunResult :=
  ([], Some (map_size m)).

(** [run] of the last DELETE branch: sort the entries, delete the keys
    behind the first [limit]. *)
Definition mem_trim_run (args : list JsArg) (m : MemoryStore)
  : MemoryStore * RunResult :=
  match args with
  | [JNum limit] =>
      let entries := js_sort (fun a b => compareItems (snd a) (snd b)) m in
      let len := Z.of_nat (length entries) in
      let m' := if limit <? len
                then fold_left (fun acc e => map_delete (fst e) acc)
                               (js_slice limit None entries) m
                else m in
      (m', Some (Z.max 0 (len - limit)))
  | _ => (m, None)
  end.

(** [prepare(sql)] of the mock: the first branch whose test on the text
    succeeds decides which methods the returned object has. *)
Definition mem_prepare (sql : jsstring) : Statement MemoryStore :=
  if includes sql (lit "INSERT INTO") then
    {| run := Some mem_insert_run; all := None; get := None |}
  else if includes sql (lit "SELECT COUNT(*)")
          && includes sql (lit "FROM hot_searches") then
    {| run := None; all := None; get := Some (fun m => Some (map_size m)) |}
  else if includes sql (lit "SELECT")
          && includes sql (lit "FROM hot_searches") then
    {| run := None; all := Some mem_select_all; get := None |}
  else if includes sql (lit "DELETE FROM hot_searches")
          && includes sql (lit "WHERE term = ?") then
    {| run := Some mem_delete_term_run; all := None; get := None |}
  else if jsstring_eqb sql (lit "DELETE FROM hot_searches") then
    {| run := Some mem_clear_run; all := None; get := None |}
  else if includes sql (lit "DELETE FROM hot_searches") then
    {| run := Some mem_trim_run; all := None; get := None |}
  else
    {| run := Some (fun _ m => (m, Some 0));
       all := Some (fun _ _ => []);
       get := Some (fun _ => None) |}.

(* ================================================================== *)
(** ** The durable handle: the table [hot_searches] under SQLite

    Rows are kept in rowid order. [seq] is the AUTOINCREMENT counter of
    the table: a new row gets a rowid above every rowid the table ever
    held. [ORDER BY] is a stable sort of the table scan, so rows that tie
    on both keys come out in rowid order. *)

Module SqlRow.
Record t := {
  id : Z;
  term : jsstring;
  score : Z;
  last_searched : Z;
  created_at : Z
}.
End SqlRow.

Record Table := {
  rows : list SqlRow.t;
  seq : Z
}.

Definition max_rowid (rs : list SqlRow.t) : Z :=
  fold_right (fun r m => Z.max (SqlRow.id r) m) 0 rs.

Definition has_term (k : jsstring) (rs : list SqlRow.t) : bool :=
  existsb (fun r => jsstring_eqb (SqlRow.term r) k) rs.

(** [ORDER BY score DESC, last_searched DESC]: [a] may come before [b]. *)
Definition order_by (a b : SqlRow.t) : bool :=
  (SqlRow.score b <? SqlRow.score a)
  || ((SqlRow.score b =? SqlRow.score a)
      && (SqlRow.last_searched b <=? SqlRow.last_searched a)).

(** [LIMIT n]: a negative [n] is no limit. *)
Definition sql_limit {A : Type} (n : Z) (l : list A) : list A :=
  if n <? 0 then l else firstn (Z.to_nat n) l.

Definition select_ranked (limit : Z) (rs : list SqlRow.t) : list SqlRow.t :=
  sql_limit limit (stable_sort order_by rs).

(** [INSERT ... VALUES (?, 1, ?, ?) ON CONFLICT(term) DO UPDATE SET
    score = score + 1, last_searched = ?]. The conflicting row is the one
    with the same [term], unique under the schema. *)
Definition sqlite_upsert_run (args : list JsArg) (t : Table)
  : Table * RunResult :=
  match args with
  | [JStr k; JNum p2; JNum p3; JNum p4] =>
      if has_term k (rows t) then
        ({| rows := map (fun r =>
                      if jsstring_eqb (SqlRow.term r) k
                      then {| SqlRow.id := SqlRow.id r;
                              SqlRow.term := SqlRow.term r;
                              SqlRow.score := SqlRow.score r + 1;
                              SqlRow.last_searched := p4;
                              SqlRow.created_at := SqlRow.created_at r |}
                      else r) (rows t);
            seq := seq t |}, Some 1)
      else
        let rowid := Z.max (seq t) (max_rowid (rows t)) + 1 in
        ({| rows := rows t ++ [{| SqlRow.id := rowid;
                                  SqlRow.term := k;
                                  SqlRow.score := 1;
                                  SqlRow.last_searched := p2;
                                  SqlRow.created_at := p3 |}];
            seq := rowid |}, Some 1)
  | _ => (t, None)
  end.

(** [SELECT term, score, last_searched as lastSearched, created_at as
    createdAt ... ORDER BY ... LIMIT ?]. *)
Definition sqlite_select_all (limit : Z) (t : Table) : list HotSearchItem :=
  map (fun r => {| term := SqlRow.term r; score := SqlRow.score r;
                   lastSearched := SqlRow.last_searched r;
                   createdAt := SqlRow.created_at r |})
      (select_ranked limit (rows t)).

(** [DELETE ... WHERE id NOT IN (SELECT id ... ORDER BY ... LIMIT ?)]. *)
Definition sqlite_cleanup_run (args : list JsArg) (t : Table)
  : Table * RunResult :=
  match args with
  | [JNum limit] =>
      let keep := map SqlRow.id (select_ranked limit (rows t)) in
      let rs := filter (fun r => existsb (Z.eqb (SqlRow.id r)) keep) (rows t) in
      ({| rows := rs; seq := seq t |},
       Some (Z.of_nat (length (rows t)) - Z.of_nat (length rs)))
  | _ => (t, None)
  end.

(** [DELETE FROM hot_searches]. *)
Definition sqlite_clear_run (args : list JsArg) (t : Table)
  : Table * RunResult :=
  ({| rows := []; seq := seq t |}, Some (Z.of_nat (length (rows t)))).

(** [DELETE FROM hot_searches WHERE term = ?]. *)
Definition sqlite_delete_term_run (args : list JsArg) (t : Table)
  : Table * RunResult :=
  match args with
  | [JStr k] =>
      let rs := filter (fun r => negb (jsstring_eqb (SqlRow.term r) k)) (rows t) in
      ({| rows := rs; seq := seq t |},
       Some (Z.of_nat (length (rows t)) - Z.of_nat (length rs)))
  | _ => (t, None)
  end.

(* ================================================================== *)
(** ** Effects: the store, the console and exceptions *)

Inductive Exn :=
| TypeError      (* a method that the object does not have was called *)
| SqliteError.   (* the engine rejected a statement *)

Inductive Res (A : Type) :=
| Ok (a : A)
| Throw (e : Exn).
Arguments Ok {A} _.
Arguments Throw {A} _.

(** One constructor per [console] call of the methods below. *)
Inductive LogLine :=
| LogForbidden (t : jsstring)
| LogRecorded (t : jsstring)
| ErrRecordFailed
| ErrQueryFailed
| LogCleaned (changes : Z)
| DebugCleanupSkipped
| LogCleared
| ErrClearFailed
| LogDeleted (t : jsstring)
| ErrDeleteFailed.

Record World (S : Type) := {
  store : S;
  console : list LogLine
}.
Arguments store {S} _.
Arguments console {S} _.

Definition M (S A : Type) : Type := World S -> Res A * World S.

Definition ret {S A} (a : A) : M S A := fun w => (Ok a, w).

Definition bind {S A B} (m : M S A) (k : A -> M S B) : M S B :=
  fun w => match m w with
           | (Ok a, w') => k a w'
           | (Throw e, w') => (Throw e, w')
           end.

Definition throw {S A} (e : Exn) : M S A := fun w => (Throw e, w).

(** [try { m } catch (error) { h }]: what [m] did before it threw stays. *)
Definition try_catch {S A} (m : M S A) (h : Exn -> M S A) : M S A :=
  fun w => match m w with
           | (Ok a, w') => (Ok a, w')
           | (Throw e, w') => h e w'
           end.

Definition log {S} (l : LogLine) : M S unit :=
  fun w => (Ok tt, {| store := store w; console := console w ++ [l] |}).

Definition lift {S A} (r : Res A) : M S A := fun w => (r, w).

Notation "x <- m ;; k" := (bind m (fun x => k))
  (at level 61, m at next level, right associativity).
Notation "m ;;; k" := (bind m (fun _ => k))
  (at level 61, right associativity).

(** [stmt.run(...args)]. *)
Definition call_run {S} (stmt : Statement S) (args : list JsArg)
  : M S RunResult :=
  fun w => match run stmt with
           | None => (Throw TypeError, w)
           | Some f => let (s', r) := f args (store w) in
                       (Ok r, {| store := s'; console := console w |})
           end.

(** [stmt.all(limit)]. *)
Definition call_all {S} (stmt : Statement S) (limit : Z)
  : M S (list HotSearchItem) :=
  fun w => match all stmt with
           | None => (Throw TypeError, w)
           | Some f => (Ok (f limit (store w)), w)
           end.

(** A database handle: what [this.db.prepare] answers. *)
Class Backend (S : Type) := {
  prepare : jsstring -> Res (Statement S)
}.

(** The object literal of [initMemoryFallback]. *)
#[export] Instance MemoryBackend : Backend MemoryStore := {
  prepare sql := Ok (mem_prepare sql)
}.

(** The better-sqlite3 handle. The engine compiles the statements the
    service issues; any other text is not modelled and is refused. *)
Definition sqlite_prepare (sql : jsstring) : Res (Statement Table) :=
  if jsstring_eqb sql SQL_UPSERT then
    Ok {| run := Some sqlite_upsert_run; all := None; get := None |}
  else if jsstring_eqb sql SQL_SELECT_TOP then
    Ok {| run := None; all := Some sqlite_select_all; get := None |}
  else if jsstring_eqb sql SQL_CLEANUP then
    Ok {| run := Some sqlite_cleanup_run; all := None; get := None |}
  else if jsstring_eqb sql SQL_CLEAR then
    Ok {| run := Some sqlite_clear_run; all := None; get := None |}
  else if jsstring_eqb sql SQL_DELETE_TERM then
    Ok {| run := Some sqlite_delete_term_run; all := None; get := None |}
  else if jsstring_eqb sql SQL_COUNT then
    Ok {| run := None; all := None;
          get := Some (fun t => Some (Z.of_nat (length (rows t)))) |}
  else Throw SqliteError.

#[export] Instance SqliteBackend : Backend Table := {
  prepare := sqlite_prepare
}.

(* ================================================================== *)
(** ** [HotSearchSQLiteService] *)

(** [/政治|暴力|色情|赌博|毒品/i] and [/fuck|shit|bitch/i]. *)
Definition forbiddenPatterns : list RegExp :=
  [ {| alternatives := [ [25919; 27835]; [26292; 21147]; [33394; 24773];
                         [36172; 21338]; [27602; 21697] ]%N;
       ignoreCase := true |};
    {| alternatives := [ lit "fuck"; lit "shit"; lit "bitch" ];
       ignoreCase := true |} ].

Definition isForbidden (t : jsstring) : bool :=
  existsb (fun pattern => test pattern t) forbiddenPatterns.

(** [!term || term.trim().length === 0]. *)
Definition isBlank (t : jsstring) : bool :=
  match t with
  | [] => true
  | _ => (length (trim t) =? 0)%nat
  end.

Record AdminResult := {
  success : bool;
  message : jsstring
}.

(** The message literals: 密码错误, 热搜记录已清除, 清除失败, 热搜词不存在,
    删除失败, and the template [热搜词 "${term}" 已删除]. *)
Definition MSG_WRONG_PASSWORD : jsstring := [23494; 30721; 38169; 35823]%N.
Definition MSG_CLEARED : jsstring :=
  [28909; 25628; 35760; 24405; 24050; 28165; 38500]%N.
Definition MSG_CLEAR_FAILED : jsstring := [28165; 38500; 22833; 36133]%N.
Definition MSG_NOT_FOUND : jsstring :=
  [28909; 25628; 35789; 19981; 23384; 22312]%N.
Definition MSG_DELETE_FAILED : jsstring := [21024; 38500; 22833; 36133]%N.
Definition MSG_DELETED (t : jsstring) : jsstring :=
  ([28909; 25628; 35789; 32; 34] ++ t ++ [34; 32; 24050; 21024; 38500])%N.

(** [process.env.HOT_SEARCH_PASSWORD || 'admin123']: an unset or empty
    variable gives the default. *)
Definition correctPassword (env : option jsstring) : jsstring :=
  match env with
  | Some (c :: p) => c :: p
  | _ => lit "admin123"
  end.

Section Service.
Context {S : Type} `{Backend S}.

Definition cleanupOldEntries : M S unit :=
  try_catch
    (stmt <- lift (prepare SQL_CLEANUP) ;;
     result <- call_run stmt [JNum MAX_ENTRIES] ;;
     match result with
     | Some changes => if 0 <? changes then log (LogCleaned changes)
                       else ret tt
     | None => ret tt
     end)
    (fun _ => log DebugCleanupSkipped).

Definition recordSearch (t : jsstring) (now : Z) : M S unit :=
  if isBlank t then ret tt
  else if isForbidden t then log (LogForbidden t)
  else
    try_catch
      (stmt <- lift (prepare SQL_UPSERT) ;;
       call_run stmt [JStr t; JNum now; JNum now; JNum now] ;;;
       cleanupOldEntries ;;;
       log (LogRecorded t))
      (fun _ => log ErrRecordFailed).

Definition getHotSearches (limit : Z) : M S (list HotSearchItem) :=
  try_catch
    (stmt <- lift (prepare SQL_SELECT_TOP) ;;
     rows <- call_all stmt (Z.min limit MAX_ENTRIES) ;;
     ret (map (fun row => {| term := term row; score := score row;
                             lastSearched := lastSearched row;
                             createdAt := createdAt row |}) rows))
    (fun _ => log ErrQueryFailed ;;; ret []).

Definition clearHotSearches (env : option jsstring) (password : jsstring)
  : M S AdminResult :=
  if negb (jsstring_eqb password (correctPassword env)) then
    ret {| success := false; message := MSG_WRONG_PASSWORD |}
  else
    try_catch
      (stmt <- lift (prepare SQL_CLEAR) ;;
       call_run stmt [] ;;;
       log LogCleared ;;;
       ret {| success := true; message := MSG_CLEARED |})
      (fun _ => log ErrClearFailed ;;;
                ret {| success := false; message := MSG_CLEAR_FAILED |}).

Definition deleteHotSearch (env : option jsstring) (t password : jsstring)
  : M S AdminResult :=
  if negb (jsstring_eqb password (correctPassword env)) then
    ret {| success := false; message := MSG_WRONG_PASSWORD |}
  else
    try_catch
      (stmt <- lift (prepare SQL_DELETE_TERM) ;;
       result <- call_run stmt [JStr t] ;;
       match result with
       | None => throw TypeError
       | Some changes =>
           if 0 <? changes then
             log (LogDeleted t) ;;;
             ret {| success := true; message := MSG_DELETED t |}
           else ret {| success := false; message := MSG_NOT_FOUND |}
       end)
      (fun _ => log ErrDeleteFailed ;;;
                ret {| success := false; message := MSG_DELETE_FAILED |}).
End Service.

(** ** [getDatabaseSize]

    What the file system answers about [DB_PATH]: whether the file is
    there, and its size in bytes ([None] when [statSync] throws). The
    returned number is kept as an exact rational. *)
Record FileSystem := {
  existsSync : bool;
  statSync : option N
}.

(** [Math.round]: the nearest integer, halves upwards. *)
Definition Math_round (x : Q) : Z := Qfloor (x + (1 # 2))%Q.

Definition getDatabaseSize (fs : FileSystem) : Q :=
  if existsSync fs then
    match statSync fs with
    | Some size =>
        (inject_Z (Math_round
           ((inject_Z (Z.of_N size) / inject_Z (1024 * 1024)) * inject_Z 100))
         / inject_Z 100)%Q
    | None => 0%Q
    end
  else 0%Q.

(* ================================================================== *)
(** ** Vocabulary of the statements *)

(** The world a method leaves behind, and the value it returns. *)
Definition after {S A} (m : M S A) (w : World S) : World S := snd (m w).
Definition value {S A} (m : M S A) (w : World S) : Res A := fst (m w).

(** A sequence of [recordSearch(term)] calls, each with its [Date.now()]. *)
Fixpoint record_all {S} `{Backend S} (calls : list (jsstring * Z))
  (w : World S) : World S :=
  match calls with
  | [] => w
  | (t, now) :: rest => record_all rest (after (recordSearch t now) w)
  end.

(** A service right after construction, on either handle, with no data. *)
Definition boot_memory : World MemoryStore :=
  {| store := []; console := [] |}.
Definition boot_sqlite : World Table :=
  {| store := {| rows := []; seq := 0 |}; console := [] |}.

Definition item_of_row (r : SqlRow.t) : HotSearchItem :=
  {| term := SqlRow.term r; score := SqlRow.score r;
     lastSearched := SqlRow.last_searched r; createdAt := SqlRow.created_at r |}.

Definition table_items (t : Table) : list HotSearchItem :=
  map item_of_row (rows t).

Definition table_lookup (k : jsstring) (t : Table) : option HotSearchItem :=
  option_map item_of_row
    (find (fun r => jsstring_eqb (SqlRow.term r) k) (rows t)).

(** The two stores hold the same records in the same storage order. *)
Definition same_data (t : Table) (m : MemoryStore) : Prop :=
  table_items t = map_values m.

(** What the schema guarantees: rowids and terms are unique. *)
Definition table_wf (t : Table) : Prop :=
  NoDup (map SqlRow.id (rows t)) /\ NoDup (map SqlRow.term (rows t)).

(** The ranking order: [a] may stand before [b]. *)
Definition ranked_before (a b : HotSearchItem) : Prop :=
  score b < score a \/ (score b = score a /\ lastSearched b <= lastSearched a).

Definition is_prefix {A} (l1 l2 : list A) : Prop :=
  exists rest, l2 = l1 ++ rest.

(** The times at which [t] was recorded in [calls]. *)
Definition times_of (t : jsstring) (calls : list (jsstring * Z)) : list Z :=
  map snd (filter (fun c => jsstring_eqb (fst c) t) calls).

Definition is_stored (o : option HotSearchItem) : bool :=
  match o with Some _ => true | None => false end.

(** No call of [calls] makes the store lose [t]: once [t] is stored, or
    is the term being recorded, it is stored after the call. *)
Fixpoint kept {S} `{Backend S} (lookup : jsstring -> S -> option HotSearchItem)
  (t : jsstring) (calls : list (jsstring * Z)) (w : World S) : bool :=
  match calls with
  | [] => true
  | (u, now) :: rest =>
      let w' := after (recordSearch u now) w in
      (if is_stored (lookup t (store w)) || jsstring_eqb u t
       then is_stored (lookup t (store w')) else true)
      && kept lookup t rest w'
  end.

Definition never_evicted (t : jsstring) (calls : list (jsstring * Z))
  (w : World Table) : bool :=
  kept table_lookup t calls w.

(** The record a first accepted call creates, and the record an accepted
    call leaves, given the one it found. *)
Definition new_item (t : jsstring) (now : Z) : HotSearchItem :=
  {| term := t; score := 1; lastSearched := now; createdAt := now |}.

Definition upsert_item (t : jsstring) (now : Z) (cur : option HotSearchItem)
  : HotSearchItem :=
  match cur with
  | Some existing => touch existing now
  | None => new_item t now
  end.

(** The record of [t] as the calls alone determine it. *)
Fixpoint replay (t : jsstring) (calls : list (jsstring * Z))
  (cur : option HotSearchItem) : option HotSearchItem :=
  match calls with
  | [] => cur
  | (u, now) :: rest =>
      replay t rest
        (if jsstring_eqb u t then Some (upsert_item t now cur) else cur)
  end.

(** The record of a term called at the times [ts], first to last. *)
Definition record_of (t : jsstring) (ts : list Z) : HotSearchItem :=
  {| term := t; score := Z.of_nat (length ts);
     lastSearched := last ts 0; createdAt := hd 0 ts |}.

(** Case-insensitive containment, as the specification words it: some
    substring of [t] equals the keyword up to the case of ASCII letters. *)
Definition fold_case (c : N) : N :=
  if ((65 <=? c) && (c <=? 90))%N then (c + 32)%N else c.

Definition contains_ci (k t : jsstring) : Prop :=
  exists pre mid post,
    t = pre ++ mid ++ post /\ map fold_case mid = map fold_case k.

(** 政治, 暴力, 色情, 赌博, 毒品, fuck, shit, bitch. *)
Definition keywords : list jsstring :=
  [ [25919; 27835]; [26292; 21147]; [33394; 24773]; [36172; 21338];
    [27602; 21697]; lit "fuck"; lit "shit"; lit "bitch" ]%N.

(** Distinct acceptable terms [term0], [term1], ... recorded at the
    times 0, 1, ... *)
Definition term_of (i : nat) : jsstring :=
  lit "term" ++ lit (NilEmpty.string_of_uint (Nat.to_uint i)).

Definition distinct_calls (n : nat) : list (jsstring * Z) :=
  map (fun i => (term_of i, Z.of_nat i)) (List.seq 0 n).

(** The writes of [recordSearch], as functions of the store. *)
Definition mem_upsert (t : jsstring) (now : Z) (m : MemoryStore) : MemoryStore :=
  fst (mem_insert_run [JStr t; JNum now; JNum now; JNum now] m).

Definition sqlite_upsert (t : jsstring) (now : Z) (tb : Table) : Table :=
  fst (sqlite_upsert_run [JStr t; JNum now; JNum now; JNum now] tb).

Definition sqlite_cleanup (tb : Table) : Table :=
  fst (sqlite_cleanup_run [JNum MAX_ENTRIES] tb).

(** The ranking order on items, as a test. *)
Definition item_leb (a b : HotSearchItem) : bool :=
  (score b <? score a)
  || ((score b =? score a) && (lastSearched b <=? lastSearched a)).

(** The table and the memory store hold the same entries, key by key, in
    the same storage order. *)
Definition entry_of_row (r : SqlRow.t) : jsstring * HotSearchItem :=
  (SqlRow.term r, item_of_row r).

Definition same_entries (t : Table) (m : MemoryStore) : Prop :=
  map entry_of_row (rows t) = m.

(* ================================================================== *)
(** ** Further vocabulary: sequences of public operations *)

(** A handle that no longer prepares anything, as a better-sqlite3
    database does once it is closed: every [prepare] throws. *)
Definition ClosedBackend : Backend unit :=
  {| prepare := fun _ => Throw SqliteError |}.

(** The mutating operations a caller of the service can issue. *)
Inductive Op :=
| OpRecord (t : jsstring) (now : Z)
| OpClear (password : jsstring)
| OpDelete (t password : jsstring).

Definition do_op {S} `{Backend S} (env : option jsstring) (o : Op)
  (w : World S) : World S :=
  match o with
  | OpRecord t now => after (recordSearch t now) w
  | OpClear password => after (clearHotSearches env password) w
  | OpDelete t password => after (deleteHotSearch env t password) w
  end.

Fixpoint run_ops {S} `{Backend S} (env : option jsstring) (ops : list Op)
  (w : World S) : World S :=
  match ops with
  | [] => w
  | o :: rest => run_ops env rest (do_op env o w)
  end.

(** The [Date.now()] values of the record calls of [ops], in order. *)
Fixpoint op_times (ops : list Op) : list Z :=
  match ops with
  | [] => []
  | OpRecord _ now :: rest => now :: op_times rest
  | _ :: rest => op_times rest
  end.

(** A stored record is sound: its term passed both gates of
    [recordSearch] and its score is positive. *)
Definition item_sound (i : HotSearchItem) : Prop :=
  isBlank (term i) = false /\ isForbidden (term i) = false /\ 1 <= score i.

(** The memory store is a map: keys are unique, and each entry is filed
    under its own term. *)
Definition mem_wf (m : MemoryStore) : Prop :=
  NoDup (map fst m) /\ Forall (fun e => term (snd e) = fst e) m.

(** The memory store never holds more than [MAX_ENTRIES] records along
    the operations [ops]. *)
Fixpoint within_capacity (env : option jsstring) (ops : list Op)
  (w : World MemoryStore) : bool :=
  match ops with
  | [] => true
  | o :: rest =>
      (length (store (do_op env o w)) <=? 50)%nat
      && within_capacity env rest (do_op env o w)
  end.

(** The two timestamps of a record are in order, and not after [T]. *)
Definition times_within (T : Z) (i : HotSearchItem) : Prop :=
  createdAt i <= lastSearched i /\ lastSearched i <= T.

(* ================================================================== *)
(** ** [getStats]

    [getStats] calls [get()] on the count statement and [all()], with no
    argument, on a statement whose text carries its own [LIMIT 10]. *)

Record HotSearchStats := {
  total : Z;
  topTerms : list HotSearchItem
}.

Definition SQL_TOP10 : jsstring := lit "
        SELECT term, score, last_searched as lastSearched, created_at as createdAt
        FROM hot_searches
        ORDER BY score DESC, last_searched DESC
        LIMIT 10
      ".

(** The [console.error] line of [getStats]; it is handed back beside the
    value instead of being appended to the console of the world. *)
Inductive StatsLogLine :=
| ErrStatsFailed.

(** [stmt.get()]. *)
Definition call_get {S} (stmt : Statement S) : M S (option Z) :=
  fun w => match get stmt with
           | None => (Throw TypeError, w)
           | Some f => (Ok (f (store w)), w)
           end.

(** What [prepare(sql).all] does when it is called with no argument;
    the inner [None] is an object without [all]. *)
Class UnboundAll (S : Type) := {
  prepare_all0 : jsstring -> Res (option (S -> list HotSearchItem))
}.

(** The mock: the same dispatch as [mem_prepare]. In the SELECT branch
    [limit] is [undefined], so [slice(0, limit)] runs to the end of the
    array. *)
Definition mem_all0 (sql : jsstring)
  : option (MemoryStore -> list HotSearchItem) :=
  if includes sql (lit "INSERT INTO") then None
  else if includes sql (lit "SELECT COUNT(*)")
          && includes sql (lit "FROM hot_searches") then None
  else if includes sql (lit "SELECT")
          && includes sql (lit "FROM hot_searches") then
    Some (fun m =>
      map (fun item => {| term := term item; score := score item;
                          lastSearched := lastSearched item;
                          createdAt := createdAt item |})
          (js_slice 0 None (js_sort compareItems (map_values m))))
  else if includes sql (lit "DELETE FROM hot_searches")
          && includes sql (lit "WHERE term = ?") then None
  else if jsstring_eqb sql (lit "DELETE FROM hot_searches") then None
  else if includes sql (lit "DELETE FROM hot_searches") then None
  else Some (fun _ => []).

#[export] Instance MemoryUnboundAll : UnboundAll MemoryStore := {
  prepare_all0 sql := Ok (mem_all0 sql)
}.

(** SQLite runs the top-ten text as it stands; any other text is not
    modelled for a call without arguments. *)
Definition sqlite_all0 (sql : jsstring)
  : Res (option (Table -> list HotSearchItem)) :=
  if jsstring_eqb sql SQL_TOP10 then
    Ok (Some (fun t => map item_of_row (select_ranked 10 (rows t))))
  else Throw SqliteError.

#[export] Instance SqliteUnboundAll : UnboundAll Table := {
  prepare_all0 := sqlite_all0
}.

Section Stats.
Context {S : Type} `{Backend S} `{UnboundAll S}.

Definition getStats : M S (HotSearchStats * list StatsLogLine) :=
  try_catch
    (countStmt <- lift (prepare SQL_COUNT) ;;
     countResult <- call_get countStmt ;;
     topAll <- lift (prepare_all0 SQL_TOP10) ;;
     rows <- match topAll with
             | Some f => fun w => (Ok (f (store w)), w)
             | None => throw TypeError
             end ;;
     ret ({| total := match countResult with
                      | Some n => n
                      | None => 0
                      end;
             topTerms :=
               map (fun row => {| term := term row; score := score row;
                                  lastSearched := lastSearched row;
                                  createdAt := createdAt row |}) rows |},
          []))
    (fun _ => ret ({| total := 0; topTerms := [] |}, [ErrStatsFailed])).
End Stats.

(* ================================================================== *)
(** ** The POST handlers: [server/api/hot-searches.post.ts] and
    [server/api/clear-hot-searches.post.ts]

    A handler gets what [readBody] answers: it may throw, answer no body,
    or a body whose field may be missing. Both handlers answer with
    [data: null]; the answer is kept as its [code] and [message]. The
    [console.error] line of a handler is handed back beside the answer. *)

Module Api.
Record Response := {
  code : Z;
  message : jsstring
}.
End Api.

Inductive ApiLogLine :=
| ErrApiRecord
| ErrApiClear.

(** The message literals: 缺少搜索词参数, success, 记录搜索词失败,
    缺少密码参数, 清除热搜失败. *)
Definition MSG_API_MISSING_TERM : jsstring :=
  [32570; 23569; 25628; 32034; 35789; 21442; 25968]%N.
Definition MSG_API_SUCCESS : jsstring := lit "success".
Definition MSG_API_RECORD_FAILED : jsstring :=
  [35760; 24405; 25628; 32034; 35789; 22833; 36133]%N.
Definition MSG_API_MISSING_PASSWORD : jsstring :=
  [32570; 23569; 23494; 30721; 21442; 25968]%N.
Definition MSG_API_CLEAR_FAILED : jsstring :=
  [28165; 38500; 28909; 25628; 22833; 36133]%N.

(** [!body || !body.field]: no body, no field, or an empty string. *)
Definition field_of (body : option (option jsstring)) : option jsstring :=
  match body with
  | Some (Some (c :: s)) => Some (c :: s)
  | _ => None
  end.

Section Handlers.
Context {S : Type} `{Backend S}.

(** [POST /api/hot-searches], body [{ term }]. *)
Definition post_hot_searches (body : Res (option (option jsstring)))
  (now : Z) (w : World S) : (Api.Response * list ApiLogLine) * World S :=
  match body with
  | Throw _ =>
      (({| Api.code := -1; Api.message := MSG_API_RECORD_FAILED |},
        [ErrApiRecord]), w)
  | Ok b =>
      match field_of b with
      | None =>
          (({| Api.code := -1; Api.message := MSG_API_MISSING_TERM |}, []), w)
      | Some t =>
          match recordSearch t now w with
          | (Ok _, w') =>
              (({| Api.code := 0; Api.message := MSG_API_SUCCESS |}, []), w')
          | (Throw _, w') =>
              (({| Api.code := -1; Api.message := MSG_API_RECORD_FAILED |},
                [ErrApiRecord]), w')
          end
      end
  end.

(** [POST /api/clear-hot-searches], body [{ password }]. *)
Definition post_clear_hot_searches (env : option jsstring)
  (body : Res (option (option jsstring))) (w : World S)
  : (Api.Response * list ApiLogLine) * World S :=
  match body with
  | Throw _ =>
      (({| Api.code := -1; Api.message := MSG_API_CLEAR_FAILED |},
        [ErrApiClear]), w)
  | Ok b =>
      match field_of b with
      | None =>
          (({| Api.code := -1; Api.message := MSG_API_MISSING_PASSWORD |},
            []), w)
      | Some password =>
          match clearHotSearches env password w with
          | (Ok result, w') =>
              if success result then
                (({| Api.code := 0; Api.message := message result |}, []), w')
              else
                (({| Api.code := -1; Api.message := message result |}, []), w')
          | (Throw _, w') =>
              (({| Api.code := -1; Api.message := MSG_API_CLEAR_FAILED |},
                [ErrApiClear]), w')
          end
      end
  end.
End Handlers.

(* ================================================================== *)
(** ** The hot-search panel: [categorizedData] of the page component

    The panel shows one row per category. A row holds the searches the
    API returned that belong to the category, and placeholder terms of the
    category where there are too few. *)

Module Category.
Record t := {
  key : jsstring;
  label : jsstring;
  icon : jsstring;
  keywords : list jsstring;
  maxDisplay : Z;
  fallback : list jsstring
}.
End Category.

Module Categorized.
Record t := {
  key : jsstring;
  label : jsstring;
  icon : jsstring;
  items : list HotSearchItem
}.
End Categorized.

Definition CATEGORIES : list Category.t :=
  [
  (* all: 全部  *)
  {| Category.key := lit "all";
     Category.label := [20840; 37096]%N;
     Category.icon := [55357; 56613]%N;
     Category.keywords := [];
     Category.maxDisplay := 6;
     Category.fallback :=
       [ [28909; 38376; 30005; 24433]%N;
         [26368; 26032; 36719; 20214]%N;
         [23398; 20064; 36164; 26009]%N;
         [27969; 34892; 38899; 20048]%N;
         [28909; 38376; 28216; 25103]%N;
         [30005; 23376; 20070]%N ] |};
  (* movie: 影视 电影 剧集 电视剧 动漫 动画 纪录片 综艺 *)
  {| Category.key := lit "movie";
     Category.label := [24433; 35270]%N;
     Category.icon := [55356; 57260]%N;
     Category.keywords :=
       [ [30005; 24433]%N;
         [21095; 38598]%N;
         [30005; 35270; 21095]%N;
         [21160; 28459]%N;
         [21160; 30011]%N;
         [32426; 24405; 29255]%N;
         [32508; 33402]%N ];
     Category.maxDisplay := 6;
     Category.fallback :=
       [ [32918; 30003; 20811; 30340; 25937; 36174]%N;
         [27969; 28010; 22320; 29699; 51]%N;
         [28909; 36771; 28378; 28907]%N;
         [39134; 39536; 20154; 29983; 50]%N;
         [31532; 20108; 21313; 26465]%N;
         [21608; 22788; 38500; 19977; 23475]%N ] |};
  (* software: 软件 软件 工具 应用 APP 程序 安装包 *)
  {| Category.key := lit "software";
     Category.label := [36719; 20214]%N;
     Category.icon := [55357; 56507]%N;
     Category.keywords :=
       [ [36719; 20214]%N;
         [24037; 20855]%N;
         [24212; 29992]%N;
         lit "APP";
         [31243; 24207]%N;
         [23433; 35013; 21253]%N ];
     Category.maxDisplay := 6;
     Category.fallback :=
       [ lit "Photoshop 2024";
         lit "Office 2021";
         lit "VS Code";
         lit "Python 3.12";
         lit "Blender";
         [21098; 26144; 19987; 19994; 29256]%N ] |};
  (* study: 学习 学习 资料 教程 课程 文档 电子书 教材 *)
  {| Category.key := lit "study";
     Category.label := [23398; 20064]%N;
     Category.icon := [55357; 56538]%N;
     Category.keywords :=
       [ [23398; 20064]%N;
         [36164; 26009]%N;
         [25945; 31243]%N;
         [35838; 31243]%N;
         [25991; 26723]%N;
         [30005; 23376; 20070]%N;
         [25945; 26448]%N ];
     Category.maxDisplay := 6;
     Category.fallback :=
       [ [80; 121; 116; 104; 111; 110; 20837; 38376]%N;
         [82; 101; 97; 99; 116; 25945; 31243]%N;
         [32771; 30740; 36164; 26009]%N;
         [38597; 24605; 30495; 39064]%N;
         [80; 80; 84; 27169; 26495]%N;
         [69; 120; 99; 101; 108; 25216; 24039]%N ] |};
  (* music: 音乐 音乐 歌曲 MP3 无损 FLAC *)
  {| Category.key := lit "music";
     Category.label := [38899; 20048]%N;
     Category.icon := [55356; 57269]%N;
     Category.keywords :=
       [ [38899; 20048]%N;
         [27468; 26354]%N;
         lit "MP3";
         [26080; 25439]%N;
         lit "FLAC" ];
     Category.maxDisplay := 6;
     Category.fallback :=
       [ [21608; 26480; 20262]%N;
         [26519; 20426; 26480]%N;
         [37011; 32043; 26827]%N;
         [38472; 22869; 36805]%N;
         [27611; 19981; 26131]%N;
         [21578; 20116; 20154]%N ] |};
  (* game: 游戏 游戏 Steam 单机 手游 网游 *)
  {| Category.key := lit "game";
     Category.label := [28216; 25103]%N;
     Category.icon := [55356; 57262]%N;
     Category.keywords :=
       [ [28216; 25103]%N;
         lit "Steam";
         [21333; 26426]%N;
         [25163; 28216]%N;
         [32593; 28216]%N ];
     Category.maxDisplay := 6;
     Category.fallback :=
       [ [40657; 31070; 35805; 58; 24735; 31354]%N;
         [21407; 31070]%N;
         [29579; 32773; 33635; 32768]%N;
         [33521; 38596; 32852; 30431]%N;
         lit "CS2";
         [33406; 23572; 30331; 27861; 29615]%N ] |}
  ].

(** [term => ({ term, score: 0, lastSearched: 0, createdAt: 0 })]. *)
Definition placeholder (t : jsstring) : HotSearchItem :=
  {| term := t; score := 0; lastSearched := 0; createdAt := 0 |}.

(** [cat.keywords.length === 0 ||
     cat.keywords.some(keyword => item.term.includes(keyword))]. *)
Definition in_category (cat : Category.t) (item : HotSearchItem) : bool :=
  (length (Category.keywords cat) =? 0)%nat
  || existsb (fun keyword => includes (term item) keyword)
             (Category.keywords cat).

(** The row of a category when the API returned nothing. *)
Definition fallback_row (cat : Category.t) : Categorized.t :=
  {| Categorized.key := Category.key cat;
     Categorized.label := Category.label cat;
     Categorized.icon := Category.icon cat;
     Categorized.items := map placeholder (Category.fallback cat) |}.

(** The row of a category otherwise. *)
Definition mixed_row (allSearches : list HotSearchItem) (cat : Category.t)
  : Categorized.t :=
  let realItems := filter (in_category cat) allSearches in
  let displayCount := Category.maxDisplay cat in
  let items :=
    if Z.of_nat (length realItems) <? displayCount then
      let needed := displayCount - Z.of_nat (length realItems) in
      realItems
      ++ map placeholder (js_slice 0 (Some needed) (Category.fallback cat))
    else js_slice 0 (Some displayCount) realItems in
  {| Categorized.key := Category.key cat;
     Categorized.label := Category.label cat;
     Categorized.icon := Category.icon cat;
     Categorized.items := items |}.

Definition categorizedData (allSearches : list HotSearchItem)
  : list Categorized.t :=
  if (length allSearches =? 0)%nat then map fallback_row CATEGORIES
  else map (mixed_row allSearches) CATEGORIES.

(* ================================================================== *)
(** * Properties *)

(** ** Strings *)

Lemma jsstring_eqb_eq (a b : jsstring) : jsstring_eqb a b = true <-> a = b.
Proof.
  unfold jsstring_eqb. destruct (list_eq_dec N.eq_dec a b); split; congruence.
Qed.

Lemma jsstring_eqb_refl (a : jsstring) : jsstring_eqb a a = true.
Proof. now apply jsstring_eqb_eq. Qed.

Lemma jsstring_eqb_neq (a b : jsstring) : jsstring_eqb a b = false <-> a <> b.
Proof.
  unfold jsstring_eqb. destruct (list_eq_dec N.eq_dec a b); split; congruence.
Qed.

(** ** Administrative operations *)

(** C7. For every store, every term and every secret other than the
    configured administrative password, [clearHotSearches] and
    [deleteHotSearch] answer [success: false] with the wrong-password
    message, and leave the store (and the console) exactly as they were.
    This holds over any database handle. *)
Theorem C7_wrong_password_rejected :
  forall (S : Type) (B : Backend S) (w : World S)
         (env : option jsstring) (t secret : jsstring),
    secret <> correctPassword env ->
    clearHotSearches env secret w
      = (Ok {| success := false; message := MSG_WRONG_PASSWORD |}, w)
    /\ deleteHotSearch env t secret w
      = (Ok {| success := false; message := MSG_WRONG_PASSWORD |}, w).
Proof.
  intros S B w env t secret Hneq.
  apply jsstring_eqb_neq in Hneq.
  unfold clearHotSearches, deleteHotSearch.
  rewrite Hneq. cbn. split; reflexivity.
Qed.

Lemma C7_wrong_password_rejected_witness :
  let w := record_all [(lit "movie", 1); (lit "book", 2)] boot_sqlite in
  lit "wrongpassword" <> correctPassword None
  /\ clearHotSearches None (lit "wrongpassword") w
       = (Ok {| success := false; message := MSG_WRONG_PASSWORD |}, w)
  /\ deleteHotSearch None (lit "movie") (lit "wrongpassword") w
       = (Ok {| success := false; message := MSG_WRONG_PASSWORD |}, w).
Proof.
  assert (Hneq : lit "wrongpassword" <> correctPassword None)
    by (vm_compute; discriminate).
  split; [exact Hneq|].
  exact (C7_wrong_password_rejected Table SqliteBackend _ None
           (lit "movie") (lit "wrongpassword") Hneq).
Defined.

(** ** Blank terms *)

(** C9. Recording the empty string, or a string that is empty after
    trimming such as three spaces, returns normally and leaves the store
    and every stored record unchanged, over any database handle. *)
Theorem C9_blank_term_is_noop :
  forall (S : Type) (B : Backend S) (w : World S) (t : jsstring) (now : Z),
    trim t = [] -> recordSearch t now w = (Ok tt, w).
Proof.
  intros S B w t now Ht. unfold recordSearch, isBlank.
  destruct t as [|c t']; [reflexivity|].
  rewrite Ht. reflexivity.
Qed.

Lemma C9_blank_term_is_noop_witness :
  let w := record_all [(lit "movie", 1)] boot_memory in
  (trim (lit "   ") = [] /\ recordSearch (lit "   ") 2 w = (Ok tt, w))
  /\ (trim (lit "") = [] /\ recordSearch (lit "") 2 w = (Ok tt, w)).
Proof.
  split; (split; [reflexivity|]).
  - exact (C9_blank_term_is_noop MemoryStore MemoryBackend _ (lit "   ") 2
             eq_refl).
  - exact (C9_blank_term_is_noop MemoryStore MemoryBackend _ (lit "") 2
             eq_refl).
Defined.

(** ** Database size *)

(** A database file of 1048576 bytes is reported as 1, not as 1048576. *)
Lemma C8_counterexample :
  let fs := {| existsSync := true; statSync := Some 1048576%N |} in
  (getDatabaseSize fs == 1)%Q
  /\ ~ (getDatabaseSize fs == inject_Z 1048576)%Q.
Proof.
  split.
  - vm_compute. reflexivity.
  - vm_compute. discriminate.
Qed.

(** C8 (amended). [getDatabaseSize] answers in megabytes, not bytes: when
    the database file exists and can be inspected, the answer is a whole
    number [k] of hundredths, the one nearest to the file size divided by
    1024 * 1024 (halves upwards); when the file is missing or cannot be
    inspected, the answer is 0. The active handle plays no part. *)
Theorem C8_size_in_megabytes :
  forall size : N,
    (getDatabaseSize {| existsSync := false; statSync := Some size |} == 0)%Q
    /\ (getDatabaseSize {| existsSync := false; statSync := None |} == 0)%Q
    /\ (getDatabaseSize {| existsSync := true; statSync := None |} == 0)%Q
    /\ exists k : Z,
         (getDatabaseSize {| existsSync := true; statSync := Some size |}
            == k # 100)%Q
         /\ 2097152 * k <= 200 * Z.of_N size + 1048576 < 2097152 * (k + 1).
Proof.
  intro size. repeat split; try reflexivity.
  unfold getDatabaseSize, Math_round. cbn [existsSync statSync].
  set (x := ((inject_Z (Z.of_N size) / inject_Z (1024 * 1024)
              * inject_Z 100 + (1 # 2)))%Q).
  exists (Qfloor x). split.
  - unfold Qeq, Qdiv, Qmult, Qinv, inject_Z. cbn. lia.
  - assert (Hx : x = (Z.of_N size * 1 * 100 * 2 + 1048576 # 2097152)%Q).
    { subst x. unfold Qplus, Qmult, Qdiv, Qinv, inject_Z. cbn. reflexivity. }
    rewrite Hx. unfold Qfloor.
    set (n := Z.of_N size * 1 * 100 * 2 + 1048576).
    pose proof (Z.mul_div_le n 2097152 ltac:(lia)).
    pose proof (Z.mul_succ_div_gt n 2097152 ltac:(lia)).
    subst n. lia.
Qed.

(** ** The moderation filter *)

Lemma Canonicalize_fold_case (x y : N) :
  Canonicalize true x = Canonicalize true y <-> fold_case x = fold_case y.
Proof.
  unfold Canonicalize, fold_case.
  destruct (N.leb_spec 97 x), (N.leb_spec x 122),
           (N.leb_spec 97 y), (N.leb_spec y 122),
           (N.leb_spec 65 x), (N.leb_spec x 90),
           (N.leb_spec 65 y), (N.leb_spec y 90); cbn; lia.
Qed.

Lemma map_Canonicalize_fold_case (a b : jsstring) :
  map (Canonicalize true) a = map (Canonicalize true) b
  <-> map fold_case a = map fold_case b.
Proof.
  revert b. induction a as [|x a IH]; intros [|y b]; cbn [map]; try easy.
  split; intro E; injection E as E1 E2.
  - apply Canonicalize_fold_case in E1. apply IH in E2. congruence.
  - apply Canonicalize_fold_case in E1. apply IH in E2. congruence.
Qed.

Lemma matchLiteral_spec (ic : bool) (pat s : jsstring) :
  matchLiteral ic pat s = true
  <-> exists mid post,
        s = mid ++ post
        /\ map (Canonicalize ic) mid = map (Canonicalize ic) pat.
Proof.
  revert s. induction pat as [|p pat IH]; intro s; cbn.
  - split; [intros _; exists [], s; easy | easy].
  - destruct s as [|c s].
    + split; [easy|]. intros (mid & post & E & Hm).
      destruct mid; cbn in *; discriminate.
    + rewrite andb_true_iff, N.eqb_eq, IH. split.
      * intros (Hc & mid & post & -> & Hm).
        exists (c :: mid), post. cbn. split; congruence.
      * intros (mid & post & E & Hm).
        destruct mid as [|c' mid]; cbn in *; [discriminate|].
        injection E as -> ->. injection Hm as Hc Hm.
        split; [congruence|]. now exists mid, post.
Qed.

Lemma test_spec (r : RegExp) (s : jsstring) :
  test r s = true
  <-> exists pre rest, s = pre ++ rest /\ matchHere r rest = true.
Proof.
  induction s as [|c s IH]; cbn.
  - rewrite orb_false_r. split.
    + intro Hm. now exists [], [].
    + intros (pre & rest & E & Hm).
      symmetry in E. apply app_eq_nil in E as [-> ->]. exact Hm.
  - rewrite orb_true_iff, IH. split.
    + intros [Hm | (pre & rest & -> & Hm)].
      * now exists [], (c :: s).
      * now exists (c :: pre), rest.
    + intros (pre & rest & E & Hm). destruct pre as [|c' pre]; cbn in E.
      * left. now subst rest.
      * right. injection E as -> ->. now exists pre, rest.
Qed.

Lemma test_contains (alts : list jsstring) (t : jsstring) :
  test {| alternatives := alts; ignoreCase := true |} t = true
  <-> exists k, In k alts /\ contains_ci k t.
Proof.
  rewrite test_spec. unfold matchHere, contains_ci. cbn. split.
  - intros (pre & rest & -> & Hm). apply existsb_exists in Hm as (k & Hk & Hm).
    apply matchLiteral_spec in Hm as (mid & post & -> & Hm).
    exists k. split; [exact Hk|]. exists pre, mid, post.
    split; [reflexivity|]. now apply map_Canonicalize_fold_case.
  - intros (k & Hk & pre & mid & post & -> & Hm).
    exists pre, (mid ++ post). split; [reflexivity|].
    apply existsb_exists. exists k. split; [exact Hk|].
    apply matchLiteral_spec. exists mid, post.
    split; [reflexivity|]. now apply map_Canonicalize_fold_case.
Qed.

Lemma isForbidden_spec (t : jsstring) :
  isForbidden t = true <-> exists k, In k keywords /\ contains_ci k t.
Proof.
  unfold isForbidden, forbiddenPatterns. cbn [existsb].
  rewrite orb_false_r, orb_true_iff, !test_contains.
  change keywords with
    ([ [25919; 27835]; [26292; 21147]; [33394; 24773]; [36172; 21338];
       [27602; 21697] ]%N ++ [ lit "fuck"; lit "shit"; lit "bitch" ]).
  split.
  - intros [(k & Hk & Hc) | (k & Hk & Hc)]; exists k; split; try exact Hc;
      apply in_or_app; [now left | now right].
  - intros (k & Hk & Hc). apply in_app_or in Hk as [Hk | Hk]; [left | right];
      now exists k.
Qed.

(** *** Blank terms hold no keyword *)

Lemma isWhiteSpace_fold_case (c : N) :
  isWhiteSpace c = true -> fold_case c = c /\ isWhiteSpace (fold_case c) = true.
Proof.
  intro Hw. assert (E : fold_case c = c).
  { unfold fold_case. destruct (N.leb_spec 65 c), (N.leb_spec c 90); cbn;
      try reflexivity.
    unfold isWhiteSpace in Hw. cbn [existsb] in Hw.
    rewrite !orb_true_iff, !andb_true_iff, !N.eqb_eq, !N.leb_le in Hw. lia. }
  now rewrite E.
Qed.

Lemma trimStart_nil (s : jsstring) :
  trimStart s = [] -> Forall (fun c => isWhiteSpace c = true) s.
Proof.
  induction s as [|c s IH]; cbn; [constructor|].
  destruct (isWhiteSpace c) eqn:Hc; [|discriminate].
  intro E. constructor; auto.
Qed.

Lemma trimStart_head (s : jsstring) (c : N) (s' : jsstring) :
  trimStart s = c :: s' -> isWhiteSpace c = false.
Proof.
  induction s as [|d s IH]; cbn; [discriminate|].
  destruct (isWhiteSpace d) eqn:Hd; [exact IH|].
  intro E. injection E as -> _. exact Hd.
Qed.

Lemma trim_nil (s : jsstring) :
  trim s = [] -> Forall (fun c => isWhiteSpace c = true) s.
Proof.
  unfold trim, trimEnd. intro E.
  assert (E' : trimStart (rev (trimStart s)) = []).
  { rewrite <- (rev_involutive (trimStart (rev (trimStart s)))), E.
    reflexivity. }
  apply trimStart_nil in E'.
  destruct (trimStart s) as [|c s'] eqn:Hs; [now apply trimStart_nil|].
  apply trimStart_head in Hs.
  rewrite Forall_forall in E'.
  specialize (E' c). rewrite <- in_rev in E'.
  rewrite E' in Hs by now left. discriminate.
Qed.

Lemma isBlank_whitespace (t : jsstring) :
  isBlank t = true -> Forall (fun c => isWhiteSpace c = true) t.
Proof.
  unfold isBlank. destruct t as [|c t]; [constructor|].
  intro E. apply Nat.eqb_eq in E. apply length_zero_iff_nil in E.
  now apply trim_nil.
Qed.

Lemma whitespace_not_forbidden (t : jsstring) :
  Forall (fun c => isWhiteSpace c = true) t -> isForbidden t = false.
Proof.
  intro Hw. destruct (isForbidden t) eqn:Hf; [|reflexivity].
  apply isForbidden_spec in Hf as (k & Hk & pre & mid & post & -> & Hm).
  apply Forall_app in Hw as [_ Hw]. apply Forall_app in Hw as [Hw _].
  assert (Hk' : exists c k', k = c :: k' /\ isWhiteSpace (fold_case c) = false).
  { cbn in Hk.
    repeat (destruct Hk as [<- | Hk]; [eexists _, _; split; reflexivity|]).
    destruct Hk. }
  destruct Hk' as (c & k' & -> & Hc).
  destruct mid as [|d mid]; cbn in Hm; [discriminate|].
  injection Hm as Hd _. inversion Hw as [|? ? Hd' _]; subst.
  apply isWhiteSpace_fold_case in Hd' as [_ Hd']. congruence.
Qed.

Lemma forbidden_not_blank (t : jsstring) :
  isForbidden t = true -> isBlank t = false.
Proof.
  intro Hf. destruct (isBlank t) eqn:Hb; [|reflexivity].
  apply isBlank_whitespace, whitespace_not_forbidden in Hb. congruence.
Qed.

Ltac break_match :=
  match goal with
  | |- context [match ?x with _ => _ end] =>
      lazymatch x with
      | context [match _ with _ => _ end] => fail
      | _ => destruct x eqn:?
      end
  end.

Ltac unfold_service :=
  unfold cleanupOldEntries, try_catch, bind, lift, call_run, call_all,
         log, ret, throw;
  cbn [fst snd store console].

(** Over any handle, an accepted term ends with the line of the write
    path: its success line, or the line of the [catch] block. *)
Lemma recordSearch_accepted_console
  (S : Type) (B : Backend S) (w : World S) (t : jsstring) (now : Z) :
  isBlank t = false -> isForbidden t = false ->
  exists c,
    console (snd (recordSearch t now w)) = c ++ [LogRecorded t]
    \/ console (snd (recordSearch t now w)) = c ++ [ErrRecordFailed].
Proof.
  intros Hb Hf. unfold recordSearch. rewrite Hb, Hf. unfold_service.
  repeat (break_match; cbn [fst snd store console]);
    eexists; ((left; reflexivity) || (right; reflexivity)).
Qed.

(** C10. The moderation filter is case-insensitive substring containment
    of the eight keywords: [isForbidden] answers true exactly for the
    terms that contain one of them in some letter case, anywhere. Over any
    handle, [recordSearch] takes the rejection path (the store is left
    as it was, the only effect is the rejection line on the console)
    exactly for those terms; a benign word with a keyword inside it is
    rejected like any other. *)
Theorem C10_moderation_filter :
  forall (S : Type) (B : Backend S) (w : World S) (t : jsstring) (now : Z),
    (isForbidden t = true <-> exists k, In k keywords /\ contains_ci k t)
    /\ (recordSearch t now w
          = (Ok tt, {| store := store w;
                       console := console w ++ [LogForbidden t] |})
        <-> exists k, In k keywords /\ contains_ci k t)
    /\ isForbidden (lit "Matsushita") = true.
Proof.
  intros S B w t now. split; [apply isForbidden_spec|]. split; [|reflexivity].
  rewrite <- isForbidden_spec. split.
  - intro E. destruct (isBlank t) eqn:Hb.
    + unfold recordSearch in E. rewrite Hb in E. unfold ret in E.
      injection E as E. apply (f_equal console) in E. cbn in E.
      apply (f_equal (@length _)) in E. rewrite length_app in E.
      cbn in E. lia.
    + destruct (isForbidden t) eqn:Hf; [reflexivity|].
      destruct (recordSearch_accepted_console S B w t now Hb Hf)
        as (c & [Hc | Hc]); rewrite E in Hc; cbn in Hc;
        apply app_inj_tail in Hc as [_ Hc]; discriminate.
  - intro Hf. unfold recordSearch.
    rewrite (forbidden_not_blank t Hf), Hf. reflexivity.
Qed.

(** ** Sorting *)

Section Sorting.
Context {A : Type} (leb : A -> A -> bool).

Let R (a b : A) : Prop := leb a b = true.

Hypothesis leb_total : forall a b, leb a b = true \/ leb b a = true.
Hypothesis leb_trans :
  forall a b c, leb a b = true -> leb b c = true -> leb a c = true.

Lemma insert_sorted_In (x y : A) (l : list A) :
  In y (insert_sorted leb x l) <-> y = x \/ In y l.
Proof.
  induction l as [|z l IH]; cbn.
  - intuition.
  - destruct (leb x z); cbn; rewrite ?IH; intuition.
Qed.

Lemma insert_sorted_StronglySorted (x : A) (l : list A) :
  StronglySorted R l -> StronglySorted R (insert_sorted leb x l).
Proof.
  induction 1 as [|z l Hl IH Hz]; cbn.
  - constructor; constructor.
  - destruct (leb x z) eqn:Hxz.
    + constructor; [now constructor|].
      constructor; [exact Hxz|].
      eapply Forall_impl; [|exact Hz]. intros b Hb. now apply leb_trans with z.
    + constructor; [exact IH|].
      apply Forall_forall. intros b Hb.
      apply insert_sorted_In in Hb as [-> | Hb].
      * destruct (leb_total x z) as [E | E]; [congruence | exact E].
      * rewrite Forall_forall in Hz. now apply Hz.
Qed.

Lemma stable_sort_StronglySorted (l : list A) :
  StronglySorted R (stable_sort leb l).
Proof.
  induction l as [|x l IH]; cbn.
  - constructor.
  - now apply insert_sorted_StronglySorted.
Qed.
End Sorting.

Section SortingFacts.
Context {A : Type}.

Lemma stable_sort_cons (leb : A -> A -> bool) (x : A) (l : list A) :
  stable_sort leb (x :: l) = insert_sorted leb x (stable_sort leb l).
Proof. reflexivity. Qed.

Lemma insert_sorted_length (leb : A -> A -> bool) (x : A) (l : list A) :
  length (insert_sorted leb x l) = Datatypes.S (length l).
Proof.
  induction l as [|z l IH]; cbn; [reflexivity|].
  destruct (leb x z); cbn; congruence.
Qed.

Lemma stable_sort_length (leb : A -> A -> bool) (l : list A) :
  length (stable_sort leb l) = length l.
Proof.
  induction l as [|x l IH]; [reflexivity|].
  now rewrite stable_sort_cons, insert_sorted_length, IH.
Qed.

Lemma stable_sort_In (leb : A -> A -> bool) (y : A) (l : list A) :
  In y (stable_sort leb l) <-> In y l.
Proof.
  induction l as [|x l IH]; [reflexivity|].
  rewrite stable_sort_cons, insert_sorted_In, IH. cbn. intuition.
Qed.

Lemma stable_sort_ext (leb1 leb2 : A -> A -> bool) (l : list A) :
  (forall a b, leb1 a b = leb2 a b) ->
  stable_sort leb1 l = stable_sort leb2 l.
Proof.
  intro E. induction l as [|x l IH]; [reflexivity|].
  rewrite !stable_sort_cons, IH. generalize (stable_sort leb2 l). intro s.
  induction s as [|z s IHs]; cbn; [reflexivity|].
  rewrite E, IHs. reflexivity.
Qed.

Lemma stable_sort_map {B : Type} (f : A -> B) (leb : B -> B -> bool)
  (l : list A) :
  map f (stable_sort (fun a b => leb (f a) (f b)) l)
  = stable_sort leb (map f l).
Proof.
  induction l as [|x l IH]; [reflexivity|].
  cbn [map]. rewrite stable_sort_cons.
  change (stable_sort leb (f x :: map f l))
    with (insert_sorted leb (f x) (stable_sort leb (map f l))).
  rewrite <- IH.
  generalize (stable_sort (fun a b => leb (f a) (f b)) l).
  intro s. induction s as [|z s IHs]; cbn; [reflexivity|].
  destruct (leb (f x) (f z)); cbn; [reflexivity|]. now rewrite IHs.
Qed.

Lemma StronglySorted_firstn (R : A -> A -> Prop) (n : nat) (l : list A) :
  StronglySorted R l -> StronglySorted R (firstn n l).
Proof.
  intro Hs. revert n. induction Hs as [|z l Hl IH Hz]; intros [|n]; cbn;
    try constructor.
  - apply IH.
  - apply Forall_forall. intros b Hb. rewrite Forall_forall in Hz.
    apply Hz. rewrite <- (firstn_skipn n l). apply in_or_app. now left.
Qed.

Lemma StronglySorted_split (R : A -> A -> Prop) (n : nat) (l : list A) :
  StronglySorted R l ->
  forall a b, In a (firstn n l) -> In b (skipn n l) -> R a b.
Proof.
  intro Hs. revert n. induction Hs as [|z l Hl IH Hz]; intros [|n] a b;
    cbn; try easy.
  intros [<- | Ha] Hb.
  - rewrite Forall_forall in Hz. apply Hz.
    rewrite <- (firstn_skipn n l). apply in_or_app. now right.
  - now apply (IH n).
Qed.

Lemma StronglySorted_map {B : Type} (f : A -> B) (R : A -> A -> Prop)
  (Q : B -> B -> Prop) (l : list A) :
  (forall a b, R a b -> Q (f a) (f b)) ->
  StronglySorted R l -> StronglySorted Q (map f l).
Proof.
  intros HRQ. induction 1 as [|z l Hl IH Hz]; cbn; constructor; [exact IH|].
  apply Forall_forall. intros b Hb. apply in_map_iff in Hb as (a & <- & Ha).
  rewrite Forall_forall in Hz. auto.
Qed.
End SortingFacts.

(** ** The ranking order *)

Lemma item_leb_total (a b : HotSearchItem) :
  item_leb a b = true \/ item_leb b a = true.
Proof.
  unfold item_leb.
  destruct (Z.ltb_spec (score b) (score a)), (Z.ltb_spec (score a) (score b)),
           (Z.eqb_spec (score b) (score a)), (Z.eqb_spec (score a) (score b)),
           (Z.leb_spec (lastSearched b) (lastSearched a)),
           (Z.leb_spec (lastSearched a) (lastSearched b)); cbn; lia.
Qed.

Lemma item_leb_ranked (a b : HotSearchItem) :
  item_leb a b = true <-> ranked_before a b.
Proof.
  unfold item_leb, ranked_before.
  rewrite orb_true_iff, andb_true_iff, Z.ltb_lt, Z.eqb_eq, Z.leb_le.
  reflexivity.
Qed.

Lemma item_leb_trans (a b c : HotSearchItem) :
  item_leb a b = true -> item_leb b c = true -> item_leb a c = true.
Proof. rewrite !item_leb_ranked. unfold ranked_before. lia. Qed.

Lemma compareItems_leb (a b : HotSearchItem) :
  (compareItems a b <=? 0) = item_leb a b.
Proof.
  unfold compareItems, item_leb.
  destruct (Z.eqb_spec (score b) (score a)) as [E | E]; cbn.
  - rewrite E, Z.ltb_irrefl. cbn.
    destruct (Z.leb_spec (lastSearched b - lastSearched a) 0),
             (Z.leb_spec (lastSearched b) (lastSearched a)); lia.
  - rewrite orb_false_r.
    destruct (Z.leb_spec (score b - score a) 0),
             (Z.ltb_spec (score b) (score a)); lia.
Qed.

Lemma order_by_item_leb (a b : SqlRow.t) :
  order_by a b = item_leb (item_of_row a) (item_of_row b).
Proof. reflexivity. Qed.

Lemma ranked_sorted (l : list HotSearchItem) :
  StronglySorted ranked_before (stable_sort item_leb l).
Proof.
  pose proof (stable_sort_StronglySorted item_leb item_leb_total
                item_leb_trans l) as Hs.
  revert Hs. generalize (stable_sort item_leb l). intros s Hs.
  induction Hs as [|z s Hs IH Hz]; constructor; [exact IH|].
  eapply Forall_impl; [|exact Hz]. intros b Hb. now apply item_leb_ranked.
Qed.

Lemma ranked_rows (rs : list SqlRow.t) :
  map item_of_row (stable_sort order_by rs)
  = stable_sort item_leb (map item_of_row rs).
Proof.
  rewrite <- stable_sort_map. f_equal.
Qed.

(** ** What each handle prepares for the texts of the service *)

Lemma mem_prepare_upsert :
  mem_prepare SQL_UPSERT
  = {| run := Some mem_insert_run; all := None; get := None |}.
Proof. vm_compute. reflexivity. Qed.

Lemma mem_prepare_select :
  mem_prepare SQL_SELECT_TOP
  = {| run := None; all := Some mem_select_all; get := None |}.
Proof. vm_compute. reflexivity. Qed.

(** The clean-up text holds [SELECT] and [FROM hot_searches], so the mock
    answers it with the object of the SELECT branch, which has no [run]. *)
Lemma mem_prepare_cleanup :
  mem_prepare SQL_CLEANUP
  = {| run := None; all := Some mem_select_all; get := None |}.
Proof. vm_compute. reflexivity. Qed.

Lemma mem_prepare_clear :
  mem_prepare SQL_CLEAR
  = {| run := Some mem_clear_run; all := None; get := None |}.
Proof. vm_compute. reflexivity. Qed.

Lemma mem_prepare_delete_term :
  mem_prepare SQL_DELETE_TERM
  = {| run := Some mem_delete_term_run; all := None; get := None |}.
Proof. vm_compute. reflexivity. Qed.

Lemma sqlite_prepare_upsert :
  sqlite_prepare SQL_UPSERT
  = Ok {| run := Some sqlite_upsert_run; all := None; get := None |}.
Proof. vm_compute. reflexivity. Qed.

Lemma sqlite_prepare_select :
  sqlite_prepare SQL_SELECT_TOP
  = Ok {| run := None; all := Some sqlite_select_all; get := None |}.
Proof. vm_compute. reflexivity. Qed.

Lemma sqlite_prepare_cleanup :
  sqlite_prepare SQL_CLEANUP
  = Ok {| run := Some sqlite_cleanup_run; all := None; get := None |}.
Proof. vm_compute. reflexivity. Qed.

(** ** The service on each handle *)

Lemma copy_items (l : list HotSearchItem) :
  map (fun row => {| term := term row; score := score row;
                     lastSearched := lastSearched row;
                     createdAt := createdAt row |}) l = l.
Proof.
  induction l as [|[? ? ? ?] l IH]; cbn; [reflexivity|]. now rewrite IH.
Qed.

Lemma js_slice_from_0 {A : Type} (e : Z) (l : list A) :
  js_slice 0 (Some e) l
  = firstn (Z.to_nat (relative_index (Z.of_nat (length l)) e)) l.
Proof.
  unfold js_slice.
  assert (E : relative_index (Z.of_nat (length l)) 0 = 0).
  { unfold relative_index. cbn. lia. }
  rewrite E, Z.sub_0_r. reflexivity.
Qed.

Lemma getHotSearches_memory (limit : Z) (w : World MemoryStore) :
  getHotSearches limit w
  = (Ok (js_slice 0 (Some (Z.min limit MAX_ENTRIES))
           (stable_sort item_leb (map_values (store w)))), w).
Proof.
  unfold getHotSearches. unfold_service. cbn [prepare MemoryBackend].
  rewrite mem_prepare_select. cbn [all]. unfold mem_select_all.
  rewrite !copy_items. unfold js_sort.
  rewrite (stable_sort_ext _ item_leb _ compareItems_leb). reflexivity.
Qed.

Lemma getHotSearches_sqlite (limit : Z) (w : World Table) :
  getHotSearches limit w
  = (Ok (sql_limit (Z.min limit MAX_ENTRIES)
           (stable_sort item_leb (table_items (store w)))), w).
Proof.
  unfold getHotSearches. unfold_service. cbn [prepare SqliteBackend].
  rewrite sqlite_prepare_select. cbn [all]. unfold sqlite_select_all.
  rewrite copy_items. unfold select_ranked, table_items.
  rewrite <- ranked_rows. unfold sql_limit.
  destruct (Z.min limit MAX_ENTRIES <? 0); [reflexivity|].
  now rewrite firstn_map.
Qed.

(** ** Listing *)

Lemma firstn_is_prefix {A : Type} (n : nat) (l : list A) :
  is_prefix (firstn n l) l.
Proof. exists (skipn n l). symmetry. apply firstn_skipn. Qed.

Lemma firstn_clamped {A : Type} (k : Z) (l : list A) :
  0 <= k ->
  firstn (Z.to_nat (relative_index (Z.of_nat (length l)) k)) l
  = firstn (Z.to_nat k) l.
Proof.
  intro Hk. unfold relative_index.
  destruct (Z.ltb_spec k 0); [lia|].
  destruct (Z.le_gt_cases k (Z.of_nat (length l))).
  - now rewrite Z.min_l.
  - rewrite Z.min_r by lia. rewrite Nat2Z.id.
    rewrite firstn_all. symmetry. apply firstn_all2. lia.
Qed.

(** Every memory store has a table with the same data, and conversely:
    a statement about two stores with the same data covers every store. *)
Lemma same_data_table (m : MemoryStore) :
  exists t, same_data t m.
Proof.
  exists {| rows := map (fun i => {| SqlRow.id := 0; SqlRow.term := term i;
                                     SqlRow.score := score i;
                                     SqlRow.last_searched := lastSearched i;
                                     SqlRow.created_at := createdAt i |})
                        (map_values m);
            seq := 0 |}.
  unfold same_data, table_items. cbn [rows]. rewrite map_map.
  apply copy_items.
Qed.

Lemma same_data_memory (t : Table) :
  exists m, same_data t m.
Proof.
  exists (map (fun i => (term i, i)) (table_items t)).
  unfold same_data, map_values. rewrite map_map. cbn. now rewrite map_id.
Qed.

(** C4. For every store and every limit, the sequence [getHotSearches]
    returns is sorted by score descending, ties by last-searched time
    descending, on the durable handle and on the memory fallback alike;
    and on the same data both handles list the records in the same order:
    the fallback's list is an initial part of the durable list, and the
    two are equal when the limit is not negative. *)
Theorem C4_list_is_ranked :
  forall (limit : Z) (wt : World Table) (wm : World MemoryStore),
    same_data (store wt) (store wm) ->
    exists lt lm,
      value (getHotSearches limit) wt = Ok lt
      /\ value (getHotSearches limit) wm = Ok lm
      /\ StronglySorted ranked_before lt
      /\ StronglySorted ranked_before lm
      /\ is_prefix lm lt
      /\ (0 <= limit -> lm = lt).
Proof.
  intros limit wt wm Hd. unfold value.
  rewrite getHotSearches_sqlite, getHotSearches_memory. cbn [fst].
  rewrite Hd, js_slice_from_0.
  set (L := stable_sort item_leb (map_values (store wm))).
  set (k := Z.min limit MAX_ENTRIES).
  assert (HL : StronglySorted ranked_before L) by apply ranked_sorted.
  eexists _, _. split; [reflexivity|]. split; [reflexivity|].
  unfold sql_limit. destruct (Z.ltb_spec k 0) as [Hk | Hk].
  - repeat split.
    + exact HL.
    + now apply StronglySorted_firstn.
    + apply firstn_is_prefix.
    + intro Hl. unfold k, MAX_ENTRIES in Hk. lia.
  - rewrite firstn_clamped by exact Hk. repeat split.
    + now apply StronglySorted_firstn.
    + now apply StronglySorted_firstn.
    + exists []. now rewrite app_nil_r.
Qed.

Lemma C4_list_is_ranked_witness :
  let calls := [(lit "movie-x", 1); (lit "movie-y", 2); (lit "movie-x", 3);
                (lit "movie-z", 4)] in
  let wt := record_all calls boot_sqlite in
  let wm := record_all calls boot_memory in
  same_data (store wt) (store wm)
  /\ exists lt lm,
       value (getHotSearches 2) wt = Ok lt
       /\ value (getHotSearches 2) wm = Ok lm
       /\ StronglySorted ranked_before lt
       /\ StronglySorted ranked_before lm
       /\ is_prefix lm lt
       /\ (0 <= 2 -> lm = lt).
Proof.
  assert (Hd : same_data
                 (store (record_all [(lit "movie-x", 1); (lit "movie-y", 2);
                                     (lit "movie-x", 3); (lit "movie-z", 4)]
                           boot_sqlite))
                 (store (record_all [(lit "movie-x", 1); (lit "movie-y", 2);
                                     (lit "movie-x", 3); (lit "movie-z", 4)]
                           boot_memory)))
    by (vm_compute; reflexivity).
  split; [exact Hd|].
  exact (C4_list_is_ranked 2 _ _ Hd).
Defined.

(** With two records stored, limit -1 does not give an empty list: the
    fallback returns one record and the durable handle both. *)
Lemma C6_counterexample :
  let calls := [(lit "movie-x", 1); (lit "movie-y", 2)] in
  value (getHotSearches (-1)) (record_all calls boot_memory)
    = Ok [ {| term := lit "movie-y"; score := 1;
              lastSearched := 2; createdAt := 2 |} ]
  /\ value (getHotSearches (-1)) (record_all calls boot_sqlite)
    = Ok [ {| term := lit "movie-y"; score := 1;
              lastSearched := 2; createdAt := 2 |};
           {| term := lit "movie-x"; score := 1;
              lastSearched := 1; createdAt := 1 |} ].
Proof. split; vm_compute; reflexivity. Qed.

(** C6 (amended). [getHotSearches] caps the limit from above only: it
    queries with [min(limit, MAX_ENTRIES)]. For every limit that is not
    negative, it returns exactly [min(limit, MAX_ENTRIES, store size)]
    records on either handle, hence at most 50 and none for limit 0. *)
Theorem C6_limit_capped_above :
  forall (limit : Z) (wt : World Table) (wm : World MemoryStore),
    0 <= limit ->
    exists lt lm,
      value (getHotSearches limit) wt = Ok lt
      /\ value (getHotSearches limit) wm = Ok lm
      /\ Z.of_nat (length lt)
         = Z.min (Z.min limit MAX_ENTRIES)
                 (Z.of_nat (length (rows (store wt))))
      /\ Z.of_nat (length lm)
         = Z.min (Z.min limit MAX_ENTRIES) (Z.of_nat (length (store wm))).
Proof.
  intros limit wt wm Hl. unfold value.
  rewrite getHotSearches_sqlite, getHotSearches_memory. cbn [fst].
  rewrite js_slice_from_0.
  assert (Hk : 0 <= Z.min limit MAX_ENTRIES) by (unfold MAX_ENTRIES; lia).
  rewrite firstn_clamped by exact Hk.
  unfold sql_limit. destruct (Z.ltb_spec (Z.min limit MAX_ENTRIES) 0); [lia|].
  eexists _, _. split; [reflexivity|]. split; [reflexivity|].
  rewrite !length_firstn, !stable_sort_length.
  unfold table_items, map_values. rewrite !length_map. lia.
Qed.

Lemma C6_limit_capped_above_witness :
  let calls := [(lit "movie-x", 1); (lit "movie-y", 2); (lit "movie-z", 3)] in
  let wt := record_all calls boot_sqlite in
  let wm := record_all calls boot_memory in
  0 <= 2
  /\ exists lt lm,
       value (getHotSearches 2) wt = Ok lt
       /\ value (getHotSearches 2) wm = Ok lm
       /\ Z.of_nat (length lt)
          = Z.min (Z.min 2 MAX_ENTRIES) (Z.of_nat (length (rows (store wt))))
       /\ Z.of_nat (length lm)
          = Z.min (Z.min 2 MAX_ENTRIES) (Z.of_nat (length (store wm))).
Proof.
  split; [lia|].
  exact (C6_limit_capped_above 2 _ _ ltac:(lia)).
Defined.

(** ** The memory store *)

Lemma map_get_set_same (k : jsstring) (v : HotSearchItem) (m : MemoryStore) :
  map_get k (map_set k v m) = Some v.
Proof.
  induction m as [|[k' v'] m IH]; cbn.
  - now rewrite jsstring_eqb_refl.
  - destruct (jsstring_eqb k' k) eqn:E; cbn; rewrite E; [reflexivity|exact IH].
Qed.

Lemma map_get_set_other (k k' : jsstring) (v : HotSearchItem)
  (m : MemoryStore) :
  k <> k' -> map_get k (map_set k' v m) = map_get k m.
Proof.
  intro Hk. induction m as [|[k0 v0] m IH]; cbn.
  - apply not_eq_sym, jsstring_eqb_neq in Hk. now rewrite Hk.
  - destruct (jsstring_eqb k0 k') eqn:E; cbn; [|now rewrite IH].
    apply jsstring_eqb_eq in E. subst k0.
    apply not_eq_sym, jsstring_eqb_neq in Hk. now rewrite Hk.
Qed.

Lemma mem_upsert_eq (t : jsstring) (now : Z) (m : MemoryStore) :
  mem_upsert t now m = map_set t (upsert_item t now (map_get t m)) m.
Proof.
  unfold mem_upsert, mem_insert_run. now destruct (map_get t m).
Qed.

Lemma mem_upsert_same (t : jsstring) (now : Z) (m : MemoryStore) :
  map_get t (mem_upsert t now m) = Some (upsert_item t now (map_get t m)).
Proof. rewrite mem_upsert_eq. apply map_get_set_same. Qed.

Lemma mem_upsert_other (k t : jsstring) (now : Z) (m : MemoryStore) :
  k <> t -> map_get k (mem_upsert t now m) = map_get k m.
Proof. intro Hk. rewrite mem_upsert_eq. now apply map_get_set_other. Qed.

(** On the fallback an accepted term is written, and the clean-up that
    follows fails on the missing [run] and is skipped. *)
Lemma recordSearch_memory (w : World MemoryStore) (t : jsstring) (now : Z) :
  isBlank t = false -> isForbidden t = false ->
  recordSearch t now w
  = (Ok tt, {| store := mem_upsert t now (store w);
               console := (console w ++ [DebugCleanupSkipped])
                            ++ [LogRecorded t] |}).
Proof.
  intros Hb Hf. unfold recordSearch. rewrite Hb, Hf. unfold_service.
  cbn [prepare MemoryBackend].
  rewrite mem_prepare_upsert, mem_prepare_cleanup. cbn [run].
  unfold mem_upsert.
  destruct (mem_insert_run _ _) as [m' r]. reflexivity.
Qed.

Lemma recordSearch_rejected (S : Type) (B : Backend S) (w : World S)
  (t : jsstring) (now : Z) :
  isBlank t = true \/ isForbidden t = true ->
  store (after (recordSearch t now) w) = store w.
Proof.
  unfold after, recordSearch. intros [E | E].
  - now rewrite E.
  - rewrite E. now destruct (isBlank t).
Qed.

(** ** The durable store *)

Lemma find_term_map (k : jsstring) (g : SqlRow.t -> SqlRow.t) (rs : list SqlRow.t) :
  (forall r, SqlRow.term (g r) = SqlRow.term r) ->
  find (fun r => jsstring_eqb (SqlRow.term r) k) (map g rs)
  = option_map g (find (fun r => jsstring_eqb (SqlRow.term r) k) rs).
Proof.
  intro Hg. induction rs as [|r rs IH]; cbn; [reflexivity|].
  rewrite Hg. destruct (jsstring_eqb (SqlRow.term r) k); [reflexivity|exact IH].
Qed.

Lemma has_term_find (k : jsstring) (rs : list SqlRow.t) :
  has_term k rs
  = match find (fun r => jsstring_eqb (SqlRow.term r) k) rs with
    | Some _ => true
    | None => false
    end.
Proof.
  unfold has_term. induction rs as [|r rs IH]; cbn; [reflexivity|].
  destruct (jsstring_eqb (SqlRow.term r) k); [reflexivity|exact IH].
Qed.

Lemma find_app_none {A : Type} (p : A -> bool) (l l' : list A) :
  find p l = None -> find p (l ++ l') = find p l'.
Proof.
  induction l as [|a l IH]; cbn; [reflexivity|].
  destruct (p a); [discriminate|exact IH].
Qed.

Lemma find_app_miss {A : Type} (p : A -> bool) (l : list A) (x : A) :
  p x = false -> find p (l ++ [x]) = find p l.
Proof.
  intro Hx. induction l as [|a l IH]; cbn; [now rewrite Hx|].
  destruct (p a); [reflexivity|exact IH].
Qed.

Lemma sqlite_upsert_same (t : jsstring) (now : Z) (tb : Table) :
  table_lookup t (sqlite_upsert t now tb)
  = Some (upsert_item t now (table_lookup t tb)).
Proof.
  unfold sqlite_upsert, sqlite_upsert_run, table_lookup.
  rewrite has_term_find.
  destruct (find _ (rows tb)) as [r|] eqn:Hfind; cbn [fst rows option_map].
  - rewrite find_term_map.
    + rewrite Hfind. cbn [option_map].
      apply find_some in Hfind as [_ Hr]. rewrite Hr. reflexivity.
    + intro r0. now destruct (jsstring_eqb (SqlRow.term r0) t).
  - rewrite find_app_none by exact Hfind. cbn.
    now rewrite jsstring_eqb_refl.
Qed.

Lemma sqlite_upsert_other (k t : jsstring) (now : Z) (tb : Table) :
  k <> t -> table_lookup k (sqlite_upsert t now tb) = table_lookup k tb.
Proof.
  intro Hk. unfold sqlite_upsert, sqlite_upsert_run, table_lookup.
  destruct (has_term t (rows tb)); cbn [fst rows].
  - f_equal. induction (rows tb) as [|r rs IH]; cbn; [reflexivity|].
    destruct (jsstring_eqb (SqlRow.term r) t) eqn:Et; cbn.
    + apply jsstring_eqb_eq in Et.
      assert (En : jsstring_eqb (SqlRow.term r) k = false)
        by (apply jsstring_eqb_neq; congruence).
      rewrite En. exact IH.
    + destruct (jsstring_eqb (SqlRow.term r) k); [reflexivity|exact IH].
  - f_equal. apply find_app_miss. cbn.
    now apply jsstring_eqb_neq, not_eq_sym.
Qed.

Lemma sqlite_cleanup_rows (tb : Table) :
  rows (sqlite_cleanup tb)
  = filter (fun r => existsb (Z.eqb (SqlRow.id r))
                       (map SqlRow.id (select_ranked MAX_ENTRIES (rows tb))))
           (rows tb).
Proof. reflexivity. Qed.

Lemma select_ranked_positive (rs : list SqlRow.t) :
  select_ranked MAX_ENTRIES rs = firstn 50 (stable_sort order_by rs).
Proof. reflexivity. Qed.

(** Within the bound the clean-up deletes nothing. *)
Lemma sqlite_cleanup_small (tb : Table) :
  (length (rows tb) <= 50)%nat -> rows (sqlite_cleanup tb) = rows tb.
Proof.
  intro Hlen. rewrite sqlite_cleanup_rows, select_ranked_positive.
  rewrite firstn_all2 by now rewrite stable_sort_length.
  apply forallb_filter_id. apply forallb_forall. intros r Hr.
  apply existsb_exists. exists (SqlRow.id r). split; [|apply Z.eqb_refl].
  apply in_map. now apply stable_sort_In.
Qed.

(** On the durable handle an accepted term is written and the table is
    then cut back to the best [MAX_ENTRIES] rows. *)
Lemma recordSearch_sqlite (w : World Table) (t : jsstring) (now : Z) :
  isBlank t = false -> isForbidden t = false ->
  store (after (recordSearch t now) w)
  = sqlite_cleanup (sqlite_upsert t now (store w))
  /\ value (recordSearch t now) w = Ok tt.
Proof.
  intros Hb Hf. unfold after, value, recordSearch. rewrite Hb, Hf.
  unfold_service. cbn [prepare SqliteBackend].
  rewrite sqlite_prepare_upsert, sqlite_prepare_cleanup. cbn [run].
  unfold sqlite_cleanup, sqlite_upsert.
  destruct (sqlite_upsert_run _ _) as [t1 r1]. cbn [fst snd store console].
  destruct (sqlite_cleanup_run _ t1) as [t2 [c|]]; cbn [fst snd store];
    [destruct (0 <? c)|]; cbn; split; reflexivity.
Qed.

(** ** The key of a record *)

(** [" a "] trims to ["a"], yet recording the one and then the other
    leaves two records of score 1 on either handle. *)
Lemma C5_counterexample :
  let calls := [(lit " a ", 1); (lit "a", 2)] in
  trim (lit " a ") = lit "a"
  /\ map_values (store (record_all calls boot_memory))
     = [ {| term := lit " a "; score := 1; lastSearched := 1; createdAt := 1 |};
         {| term := lit "a"; score := 1; lastSearched := 2; createdAt := 2 |} ]
  /\ table_items (store (record_all calls boot_sqlite))
     = [ {| term := lit " a "; score := 1; lastSearched := 1; createdAt := 1 |};
         {| term := lit "a"; score := 1; lastSearched := 2; createdAt := 2 |} ].
Proof. repeat split; vm_compute; reflexivity. Qed.

(** C5 (amended). The term is the key exactly as it was passed: trimming
    only decides whether the term is blank. Recording an accepted term [t]
    creates or updates the record under the key [t] itself and leaves the
    record under every other key as it was, the key [trim t] included when
    it differs from [t]; so [" a "] and ["a"] are two records. On the
    durable handle this is stated for a table below its capacity, where
    nothing is evicted. *)
Theorem C5_key_is_verbatim :
  forall (t : jsstring) (now : Z) (wm : World MemoryStore) (wt : World Table),
    isBlank t = false -> isForbidden t = false ->
    (length (rows (store wt)) < 50)%nat ->
    let wm' := after (recordSearch t now) wm in
    let wt' := after (recordSearch t now) wt in
    map_get t (store wm') = Some (upsert_item t now (map_get t (store wm)))
    /\ table_lookup t (store wt')
       = Some (upsert_item t now (table_lookup t (store wt)))
    /\ forall k, k <> t ->
         map_get k (store wm') = map_get k (store wm)
         /\ table_lookup k (store wt') = table_lookup k (store wt).
Proof.
  intros t now wm wt Hb Hf Hlen wm' wt'. subst wm' wt'.
  destruct (recordSearch_sqlite wt t now Hb Hf) as [Et _].
  assert (Em : store (after (recordSearch t now) wm)
               = mem_upsert t now (store wm)).
  { unfold after. now rewrite recordSearch_memory. }
  assert (Er : rows (sqlite_cleanup (sqlite_upsert t now (store wt)))
               = rows (sqlite_upsert t now (store wt))).
  { apply sqlite_cleanup_small.
    unfold sqlite_upsert, sqlite_upsert_run.
    destruct (has_term t (rows (store wt))); cbn [fst rows].
    - rewrite length_map. lia.
    - rewrite length_app. cbn. lia. }
  assert (El : forall k, table_lookup k (store (after (recordSearch t now) wt))
                         = table_lookup k (sqlite_upsert t now (store wt))).
  { intro k. unfold table_lookup. now rewrite Et, Er. }
  rewrite Em. repeat split.
  - apply mem_upsert_same.
  - rewrite El. apply sqlite_upsert_same.
  - now apply mem_upsert_other.
  - rewrite El. now apply sqlite_upsert_other.
Qed.

Lemma C5_key_is_verbatim_witness :
  let wm := record_all [(lit "a", 1)] boot_memory in
  let wt := record_all [(lit "a", 1)] boot_sqlite in
  let wm' := after (recordSearch (lit " a ") 2) wm in
  let wt' := after (recordSearch (lit " a ") 2) wt in
  (isBlank (lit " a ") = false /\ isForbidden (lit " a ") = false
   /\ (length (rows (store wt)) < 50)%nat)
  /\ map_get (lit " a ") (store wm')
     = Some (upsert_item (lit " a ") 2 (map_get (lit " a ") (store wm)))
  /\ table_lookup (lit " a ") (store wt')
     = Some (upsert_item (lit " a ") 2 (table_lookup (lit " a ") (store wt)))
  /\ forall k, k <> lit " a " ->
       map_get k (store wm') = map_get k (store wm)
       /\ table_lookup k (store wt') = table_lookup k (store wt).
Proof.
  assert (Hlen : (length (rows (store (record_all [(lit "a", 1%Z)]
                                         boot_sqlite))) < 50)%nat)
    by (vm_compute; lia).
  split; [repeat split; try reflexivity; exact Hlen|].
  exact (C5_key_is_verbatim (lit " a ") 2 _ _ eq_refl eq_refl Hlen).
Defined.

(** ** The schema invariant *)

Lemma max_rowid_ge (r : SqlRow.t) (rs : list SqlRow.t) :
  In r rs -> SqlRow.id r <= max_rowid rs.
Proof.
  induction rs as [|r0 rs IH]; [easy|].
  change (max_rowid (r0 :: rs)) with (Z.max (SqlRow.id r0) (max_rowid rs)).
  intros [-> | Hr]; [|specialize (IH Hr)]; lia.
Qed.

Lemma NoDup_map_filter {A B : Type} (f : A -> B) (p : A -> bool)
  (l : list A) :
  NoDup (map f l) -> NoDup (map f (filter p l)).
Proof.
  induction l as [|a l IH]; cbn; [easy|].
  intro Hnd. inversion Hnd as [|? ? Hnotin Hnd']; subst.
  destruct (p a); cbn; [|now apply IH].
  constructor; [|now apply IH].
  intro Hin. apply Hnotin. apply in_map_iff in Hin as (x & Hx & Hin).
  apply filter_In in Hin as [Hin _]. apply in_map_iff. now exists x.
Qed.

Lemma NoDup_map_inj {A B : Type} (f : A -> B) (l : list A) (a b : A) :
  NoDup (map f l) -> In a l -> In b l -> f a = f b -> a = b.
Proof.
  induction l as [|x l IH]; cbn; [easy|].
  intro Hnd. inversion Hnd as [|? ? Hnotin Hnd']; subst.
  intros [-> | Ha] [-> | Hb] E; try reflexivity.
  - exfalso. apply Hnotin. rewrite E. now apply in_map.
  - exfalso. apply Hnotin. rewrite <- E. now apply in_map.
  - now apply IH.
Qed.

Lemma sqlite_upsert_wf (t : jsstring) (now : Z) (tb : Table) :
  table_wf tb -> table_wf (sqlite_upsert t now tb).
Proof.
  intros [Hid Hterm]. unfold table_wf, sqlite_upsert, sqlite_upsert_run.
  destruct (has_term t (rows tb)) eqn:Hhas; cbn [fst rows].
  - rewrite !map_map. split.
    + erewrite map_ext; [exact Hid|].
      intro r. now destruct (jsstring_eqb (SqlRow.term r) t).
    + erewrite map_ext; [exact Hterm|].
      intro r. now destruct (jsstring_eqb (SqlRow.term r) t).
  - rewrite !map_app. cbn [map]. split.
    + apply NoDup_app; [exact Hid | repeat constructor; easy |].
      intros a Ha [<- | []]. apply in_map_iff in Ha as (r & Hr & Hin).
      apply max_rowid_ge in Hin. cbn in Hr. lia.
    + apply NoDup_app; [exact Hterm | repeat constructor; easy |].
      intros a Ha [<- | []]. apply in_map_iff in Ha as (r & Hr & Hin).
      cbn in Hr.
      assert (Hex : has_term t (rows tb) = true).
      { apply existsb_exists. exists r. split; [exact Hin|].
        now apply jsstring_eqb_eq. }
      congruence.
Qed.

Lemma sqlite_cleanup_wf (tb : Table) :
  table_wf tb -> table_wf (sqlite_cleanup tb).
Proof.
  intros [Hid Hterm]. unfold table_wf. rewrite sqlite_cleanup_rows.
  split; now apply NoDup_map_filter.
Qed.

Lemma recordSearch_sqlite_cases (w : World Table) (t : jsstring) (now : Z) :
  store (after (recordSearch t now) w) = store w
  \/ (isBlank t = false /\ isForbidden t = false
      /\ store (after (recordSearch t now) w)
         = sqlite_cleanup (sqlite_upsert t now (store w))).
Proof.
  destruct (isBlank t) eqn:Hb.
  - left. apply recordSearch_rejected. now left.
  - destruct (isForbidden t) eqn:Hf.
    + left. apply recordSearch_rejected. now right.
    + right. repeat split. now apply recordSearch_sqlite.
Qed.

Lemma recordSearch_wf (w : World Table) (t : jsstring) (now : Z) :
  table_wf (store w) -> table_wf (store (after (recordSearch t now) w)).
Proof.
  intro Hwf. destruct (recordSearch_sqlite_cases w t now) as [-> | (_ & _ & ->)].
  - exact Hwf.
  - now apply sqlite_cleanup_wf, sqlite_upsert_wf.
Qed.

Lemma find_filter_unique (k : jsstring) (p : SqlRow.t -> bool)
  (rs : list SqlRow.t) :
  NoDup (map SqlRow.term rs) ->
  find (fun r => jsstring_eqb (SqlRow.term r) k) (filter p rs) = None
  \/ find (fun r => jsstring_eqb (SqlRow.term r) k) (filter p rs)
     = find (fun r => jsstring_eqb (SqlRow.term r) k) rs.
Proof.
  induction rs as [|r rs IH]; cbn; [now left|].
  intro Hnd. inversion Hnd as [|? ? Hnotin Hnd']; subst.
  destruct (jsstring_eqb (SqlRow.term r) k) eqn:Ek.
  - destruct (p r); cbn; [rewrite Ek; now right|]. left.
    destruct (find _ (filter p rs)) as [x|] eqn:Hx; [|reflexivity].
    apply find_some in Hx as [Hin Hxk]. apply filter_In in Hin as [Hin _].
    apply jsstring_eqb_eq in Ek, Hxk. exfalso. apply Hnotin.
    rewrite Ek, <- Hxk. now apply in_map.
  - destruct (p r); cbn; [rewrite Ek|]; now apply IH.
Qed.

Lemma sqlite_cleanup_lookup (k : jsstring) (tb : Table) :
  table_wf tb ->
  table_lookup k (sqlite_cleanup tb) = None
  \/ table_lookup k (sqlite_cleanup tb) = table_lookup k tb.
Proof.
  intros [_ Hterm]. unfold table_lookup. rewrite sqlite_cleanup_rows.
  destruct (find_filter_unique k
              (fun r => existsb (Z.eqb (SqlRow.id r))
                          (map SqlRow.id (select_ranked MAX_ENTRIES (rows tb))))
              (rows tb) Hterm) as [-> | ->]; [now left | now right].
Qed.

(** ** Recording a term repeatedly *)

Lemma last_cons_default {A : Type} (a d : A) (l : list A) :
  last (a :: l) d = last l a.
Proof.
  revert a d. induction l as [|b l IH]; intros a d; [reflexivity|].
  change (last (a :: b :: l) d) with (last (b :: l) d).
  now rewrite !IH.
Qed.

Lemma times_of_cons (t u : jsstring) (now : Z) (calls : list (jsstring * Z)) :
  times_of t ((u, now) :: calls)
  = if jsstring_eqb u t then now :: times_of t calls else times_of t calls.
Proof.
  unfold times_of. cbn. now destruct (jsstring_eqb u t).
Qed.

Lemma replay_some (t : jsstring) (calls : list (jsstring * Z))
  (e : HotSearchItem) :
  replay t calls (Some e)
  = Some {| term := term e;
            score := score e + Z.of_nat (length (times_of t calls));
            lastSearched := last (times_of t calls) (lastSearched e);
            createdAt := createdAt e |}.
Proof.
  revert e. induction calls as [|[u now] rest IH]; intro e.
  - cbn. rewrite Z.add_0_r. now destruct e.
  - cbn [replay]. rewrite times_of_cons.
    destruct (jsstring_eqb u t); [|apply IH].
    rewrite IH. cbn [upsert_item touch term score lastSearched createdAt].
    rewrite last_cons_default. f_equal. f_equal.
    cbn [length]. lia.
Qed.

Lemma replay_none (t : jsstring) (calls : list (jsstring * Z)) :
  times_of t calls <> [] ->
  replay t calls None = Some (record_of t (times_of t calls)).
Proof.
  induction calls as [|[u now] rest IH]; [easy|].
  cbn [replay]. rewrite times_of_cons.
  destruct (jsstring_eqb u t); [intros _ | exact IH].
  rewrite replay_some. unfold record_of.
  cbn [upsert_item new_item term score lastSearched createdAt hd].
  rewrite last_cons_default. f_equal. f_equal. cbn [length]. lia.
Qed.

Section RepeatedRecord.
Context {S : Type} `{Backend S}.
Variable lookup : jsstring -> S -> option HotSearchItem.
Variable Inv : S -> Prop.
Variable t : jsstring.

Hypothesis step_inv : forall u now w,
  Inv (store w) -> Inv (store (after (recordSearch u now) w)).
Hypothesis step_same : forall now w,
  Inv (store w) ->
  lookup t (store (after (recordSearch t now) w)) = None
  \/ lookup t (store (after (recordSearch t now) w))
     = Some (upsert_item t now (lookup t (store w))).
Hypothesis step_other : forall u now w,
  u <> t -> Inv (store w) ->
  lookup t (store (after (recordSearch u now) w)) = None
  \/ lookup t (store (after (recordSearch u now) w)) = lookup t (store w).

(** While [t] is never lost, its record is the one the calls determine. *)
Lemma kept_replay (calls : list (jsstring * Z)) (w : World S) :
  Inv (store w) ->
  kept lookup t calls w = true ->
  lookup t (store (record_all calls w))
  = replay t calls (lookup t (store w)).
Proof.
  revert w. induction calls as [|[u now] rest IH]; intros w Hinv Hk;
    [reflexivity|].
  cbn [kept] in Hk. apply andb_true_iff in Hk as [Hstep Hrest].
  cbn [record_all replay].
  rewrite IH; [|now apply step_inv | exact Hrest]. f_equal.
  destruct (jsstring_eqb u t) eqn:Eu.
  - apply jsstring_eqb_eq in Eu. subst u.
    rewrite orb_true_r in Hstep.
    destruct (step_same now w Hinv) as [E | E]; [|exact E].
    rewrite E in Hstep. discriminate.
  - apply jsstring_eqb_neq in Eu. rewrite orb_false_r in Hstep.
    destruct (step_other u now w Eu Hinv) as [E | E]; [|exact E].
    rewrite E in *. destruct (lookup t (store w)); [discriminate|reflexivity].
Qed.
End RepeatedRecord.

Lemma memory_step_same (t : jsstring) (now : Z) (w : World MemoryStore) :
  isBlank t = false -> isForbidden t = false ->
  map_get t (store (after (recordSearch t now) w))
  = Some (upsert_item t now (map_get t (store w))).
Proof.
  intros Hb Hf. unfold after. rewrite recordSearch_memory by assumption.
  apply mem_upsert_same.
Qed.

Lemma memory_step_other (t u : jsstring) (now : Z) (w : World MemoryStore) :
  u <> t ->
  map_get t (store (after (recordSearch u now) w)) = map_get t (store w).
Proof.
  intro Hu. destruct (isBlank u) eqn:Hb.
  - rewrite recordSearch_rejected; [reflexivity | now left].
  - destruct (isForbidden u) eqn:Hf.
    + rewrite recordSearch_rejected; [reflexivity | now right].
    + unfold after. rewrite recordSearch_memory by assumption.
      apply mem_upsert_other. congruence.
Qed.

(** The fallback never loses a stored term to a [recordSearch] call. *)
Lemma memory_kept (t : jsstring) (calls : list (jsstring * Z))
  (w : World MemoryStore) :
  isBlank t = false -> isForbidden t = false ->
  kept map_get t calls w = true.
Proof.
  intros Hb Hf. revert w. induction calls as [|[u now] rest IH]; intro w;
    [reflexivity|].
  cbn [kept]. rewrite IH, andb_true_r.
  destruct (jsstring_eqb u t) eqn:Eu.
  - apply jsstring_eqb_eq in Eu. subst u. rewrite orb_true_r.
    now rewrite memory_step_same.
  - apply jsstring_eqb_neq in Eu. rewrite orb_false_r.
    rewrite memory_step_other by exact Eu.
    now destruct (map_get t (store w)).
Qed.

Lemma sqlite_step_same (t : jsstring) (now : Z) (w : World Table) :
  isBlank t = false -> isForbidden t = false ->
  table_wf (store w) ->
  table_lookup t (store (after (recordSearch t now) w)) = None
  \/ table_lookup t (store (after (recordSearch t now) w))
     = Some (upsert_item t now (table_lookup t (store w))).
Proof.
  intros Hb Hf Hwf. destruct (recordSearch_sqlite w t now Hb Hf) as [-> _].
  rewrite <- sqlite_upsert_same.
  now apply sqlite_cleanup_lookup, sqlite_upsert_wf.
Qed.

Lemma sqlite_step_other (t u : jsstring) (now : Z) (w : World Table) :
  u <> t -> table_wf (store w) ->
  table_lookup t (store (after (recordSearch u now) w)) = None
  \/ table_lookup t (store (after (recordSearch u now) w))
     = table_lookup t (store w).
Proof.
  intros Hu Hwf.
  destruct (recordSearch_sqlite_cases w u now) as [-> | (_ & _ & ->)];
    [now right|].
  rewrite <- (sqlite_upsert_other t u now (store w)) by congruence.
  now apply sqlite_cleanup_lookup, sqlite_upsert_wf.
Qed.

(** C3. Let [t] be a term that is neither blank nor forbidden and not yet
    stored, and let [calls] be any sequence of [recordSearch] calls in
    which [t] is recorded N >= 1 times (other terms may be recorded in
    between). On the fallback, and on the durable handle as long as no
    call evicts [t], the record of [t] afterwards has score N, the time of
    the first of these calls as [createdAt] and the time of the last one
    as [lastSearched]. Since this holds after every prefix of the calls,
    [createdAt] never changes once it is set. *)
Theorem C3_repeated_record :
  forall (t : jsstring) (calls : list (jsstring * Z))
         (wm : World MemoryStore) (wt : World Table),
    isBlank t = false -> isForbidden t = false ->
    times_of t calls <> [] ->
    map_get t (store wm) = None ->
    table_wf (store wt) -> table_lookup t (store wt) = None ->
    never_evicted t calls wt = true ->
    map_get t (store (record_all calls wm))
      = Some (record_of t (times_of t calls))
    /\ table_lookup t (store (record_all calls wt))
      = Some (record_of t (times_of t calls)).
Proof.
  intros t calls wm wt Hb Hf Hn Hm Hwf Ht Hk. split.
  - rewrite (kept_replay map_get (fun _ => True) t); auto.
    + rewrite Hm. now apply replay_none.
    + intros now w _. right. now apply memory_step_same.
    + intros u now w Hu _. right. now apply memory_step_other.
    + now apply memory_kept.
  - rewrite (kept_replay table_lookup table_wf t); auto.
    + rewrite Ht. now apply replay_none.
    + intros u now w. apply recordSearch_wf.
    + intros now w. now apply sqlite_step_same.
    + intros u now w. now apply sqlite_step_other.
Qed.

Lemma C3_repeated_record_witness :
  let t := lit "movie-x" in
  let calls := [(lit "movie-x", 10); (lit "movie-y", 11);
                (lit "movie-x", 12); (lit "movie-x", 15)] in
  (isBlank t = false /\ isForbidden t = false /\ times_of t calls <> []
   /\ map_get t (store boot_memory) = None
   /\ table_wf (store boot_sqlite)
   /\ table_lookup t (store boot_sqlite) = None
   /\ never_evicted t calls boot_sqlite = true)
  /\ map_get t (store (record_all calls boot_memory))
     = Some {| term := t; score := 3; lastSearched := 15; createdAt := 10 |}
  /\ table_lookup t (store (record_all calls boot_sqlite))
     = Some {| term := t; score := 3; lastSearched := 15; createdAt := 10 |}.
Proof.
  assert (Hn : times_of (lit "movie-x")
                 [(lit "movie-x", 10); (lit "movie-y", 11);
                  (lit "movie-x", 12); (lit "movie-x", 15)] <> [])
    by (vm_compute; discriminate).
  assert (Hwf : table_wf (store boot_sqlite))
    by (split; constructor).
  assert (Hk : never_evicted (lit "movie-x")
                 [(lit "movie-x", 10); (lit "movie-y", 11);
                  (lit "movie-x", 12); (lit "movie-x", 15)] boot_sqlite = true)
    by (vm_compute; reflexivity).
  split.
  { exact (conj eq_refl (conj eq_refl (conj Hn (conj eq_refl
             (conj Hwf (conj eq_refl Hk)))))). }
  exact (C3_repeated_record (lit "movie-x") _ boot_memory boot_sqlite
           eq_refl eq_refl Hn eq_refl Hwf eq_refl Hk).
Defined.

(** ** Capacity *)

(** On a well-formed table the clean-up leaves at most [MAX_ENTRIES] rows. *)
Lemma sqlite_cleanup_bound (tb : Table) :
  table_wf tb -> (length (rows (sqlite_cleanup tb)) <= 50)%nat.
Proof.
  intros [Hid _]. rewrite sqlite_cleanup_rows, select_ranked_positive.
  set (keep := map SqlRow.id (firstn 50 (stable_sort order_by (rows tb)))).
  set (p := fun r => existsb (Z.eqb (SqlRow.id r)) keep).
  assert (Hkeep : (length keep <= 50)%nat).
  { unfold keep. rewrite length_map, length_firstn. lia. }
  rewrite <- (length_map SqlRow.id).
  etransitivity; [|exact Hkeep].
  apply NoDup_incl_length; [now apply NoDup_map_filter|].
  intros i Hi. apply in_map_iff in Hi as (r & <- & Hr).
  apply filter_In in Hr as [_ Hr]. unfold p in Hr.
  apply existsb_exists in Hr as (j & Hj & E).
  apply Z.eqb_eq in E. now rewrite E.
Qed.

(** The durable handle keeps the bound after every call. *)
Lemma sqlite_size_bounded (calls : list (jsstring * Z)) (w : World Table) :
  table_wf (store w) -> (length (rows (store w)) <= 50)%nat ->
  (length (rows (store (record_all calls w))) <= 50)%nat.
Proof.
  revert w. induction calls as [|[u now] rest IH]; intros w Hwf Hlen;
    [exact Hlen|].
  cbn [record_all]. apply IH; [now apply recordSearch_wf|].
  destruct (recordSearch_sqlite_cases w u now) as [-> | (_ & _ & ->)];
    [exact Hlen|].
  now apply sqlite_cleanup_bound, sqlite_upsert_wf.
Qed.

(** What the clean-up of the durable handle deletes ranks at or below
    everything it keeps. *)
Lemma sqlite_cleanup_drops_lowest (tb : Table) (r d : SqlRow.t) :
  table_wf tb ->
  In r (rows (sqlite_cleanup tb)) ->
  In d (rows tb) -> ~ In d (rows (sqlite_cleanup tb)) ->
  ranked_before (item_of_row r) (item_of_row d).
Proof.
  intros [Hid _] Hr Hd Hnd. rewrite sqlite_cleanup_rows in Hr, Hnd.
  rewrite select_ranked_positive in Hr, Hnd.
  set (sorted := stable_sort order_by (rows tb)) in *.
  assert (Hsorted : StronglySorted (fun a b => order_by a b = true) sorted).
  { apply stable_sort_StronglySorted.
    - intros a b. rewrite !order_by_item_leb. apply item_leb_total.
    - intros a b c. rewrite !order_by_item_leb. apply item_leb_trans. }
  apply item_leb_ranked. rewrite <- order_by_item_leb.
  apply (StronglySorted_split _ 50 sorted Hsorted).
  - apply filter_In in Hr as [Hr Hkeep].
    apply existsb_exists in Hkeep as (j & Hj & E). apply Z.eqb_eq in E.
    apply in_map_iff in Hj as (r' & Hr' & Hin). subst j.
    assert (r = r'); [|now subst].
    apply (NoDup_map_inj SqlRow.id (rows tb)); auto.
    apply (stable_sort_In order_by). unfold sorted in Hin.
    rewrite <- (firstn_skipn 50). apply in_or_app. now left.
  - assert (Hin : In d sorted) by now apply stable_sort_In.
    rewrite <- (firstn_skipn 50 sorted) in Hin.
    apply in_app_or in Hin as [Hin | Hin]; [|exact Hin].
    exfalso. apply Hnd. apply filter_In. split; [exact Hd|].
    apply existsb_exists. exists (SqlRow.id d). split; [|apply Z.eqb_refl].
    now apply in_map.
Qed.

(** C1. The bound fails on the memory fallback. Fifty-one distinct terms,
    none blank and none forbidden, are recorded once each: the fallback
    then holds 51 records, one more than [MAX_ENTRIES], while the durable
    handle holds 50. The clean-up statement is answered by the SELECT
    branch of the mock ([mem_prepare_cleanup]), whose object has no [run];
    the call throws and the eviction is skipped. *)
Theorem C1_memory_fallback_exceeds_bound :
  let calls := distinct_calls 51 in
  NoDup (map fst calls)
  /\ forallb (fun c => negb (isBlank (fst c)) && negb (isForbidden (fst c)))
             calls = true
  /\ length (store (record_all calls boot_memory)) = 51%nat
  /\ length (rows (store (record_all calls boot_sqlite))) = 50%nat.
Proof.
  split.
  - assert (E : nodup (list_eq_dec N.eq_dec) (map fst (distinct_calls 51))
                = map fst (distinct_calls 51)) by (vm_compute; reflexivity).
    rewrite <- E. apply NoDup_nodup.
  - repeat split; vm_compute; reflexivity.
Qed.

(** C2. The two handles part once the capacity is exceeded. After the 51
    calls above and one more for the first term, the durable handle has
    evicted and re-created that term (score 1, created at the last call),
    whereas the fallback, which never evicts, still counts it (score 2,
    created at the first call): [getHotSearches(1)] differs. *)
Theorem C2_backends_diverge :
  let calls := distinct_calls 51 ++ [(term_of 0, 51)] in
  value (getHotSearches 1) (record_all calls boot_sqlite)
    = Ok [ {| term := term_of 0; score := 1;
              lastSearched := 51; createdAt := 51 |} ]
  /\ value (getHotSearches 1) (record_all calls boot_memory)
    = Ok [ {| term := term_of 0; score := 2;
              lastSearched := 51; createdAt := 0 |} ].
Proof. split; vm_compute; reflexivity. Qed.

(** ** Agreement of the two handles within the capacity *)

Lemma map_set_length (k : jsstring) (v : HotSearchItem) (m : MemoryStore) :
  (length m <= length (map_set k v m))%nat.
Proof.
  induction m as [|[k' v'] m IH]; cbn; [lia|].
  destruct (jsstring_eqb k' k); cbn; lia.
Qed.

Lemma memory_size_step (u : jsstring) (now : Z) (w : World MemoryStore) :
  (length (store w) <= length (store (after (recordSearch u now) w)))%nat.
Proof.
  destruct (isBlank u) eqn:Hb.
  - rewrite recordSearch_rejected; [lia | now left].
  - destruct (isForbidden u) eqn:Hf.
    + rewrite recordSearch_rejected; [lia | now right].
    + unfold after. rewrite recordSearch_memory by assumption.
      cbn [snd store]. rewrite mem_upsert_eq. apply map_set_length.
Qed.

Lemma memory_size_mono (calls : list (jsstring * Z)) (w : World MemoryStore) :
  (length (store w) <= length (store (record_all calls w)))%nat.
Proof.
  revert w. induction calls as [|[u now] rest IH]; intro w; [cbn; lia|].
  cbn [record_all]. etransitivity; [apply (memory_size_step u now)|apply IH].
Qed.

Lemma upsert_same_entries (t : jsstring) (now : Z) (tb : Table) :
  NoDup (map SqlRow.term (rows tb)) ->
  map entry_of_row (rows (sqlite_upsert t now tb))
  = mem_upsert t now (map entry_of_row (rows tb)).
Proof.
  rewrite mem_upsert_eq. unfold sqlite_upsert, sqlite_upsert_run.
  generalize (Z.max (seq tb) (max_rowid (rows tb)) + 1). intro rowid.
  assert (E : forall rs : list SqlRow.t,
             NoDup (map SqlRow.term rs) ->
             map entry_of_row
               (if has_term t rs
                then map (fun r =>
                       if jsstring_eqb (SqlRow.term r) t
                       then {| SqlRow.id := SqlRow.id r;
                               SqlRow.term := SqlRow.term r;
                               SqlRow.score := SqlRow.score r + 1;
                               SqlRow.last_searched := now;
                               SqlRow.created_at := SqlRow.created_at r |}
                       else r) rs
                else rs ++ [{| SqlRow.id := rowid; SqlRow.term := t;
                               SqlRow.score := 1; SqlRow.last_searched := now;
                               SqlRow.created_at := now |}])
             = map_set t (upsert_item t now (map_get t (map entry_of_row rs)))
                       (map entry_of_row rs)).
  { induction rs as [|r rs IH]; intro Hnd; [reflexivity|].
    inversion Hnd as [|? ? Hnotin Hnd']; subst.
    cbn [has_term existsb map map_get map_set entry_of_row fst snd].
    fold (has_term t rs). fold entry_of_row.
    destruct (jsstring_eqb (SqlRow.term r) t) eqn:Et; cbn [orb].
    - cbn [map]. f_equal. f_equal.
      apply jsstring_eqb_eq in Et. subst t.
      clear IH Hnd Hnd'. induction rs as [|r' rs IH']; [reflexivity|].
      cbn [map].
      assert (En : jsstring_eqb (SqlRow.term r') (SqlRow.term r) = false).
      { apply jsstring_eqb_neq. intro E. apply Hnotin. left. exact E. }
      rewrite En. f_equal. apply IH'. intro Hin. apply Hnotin. now right.
    - specialize (IH Hnd'). destruct (has_term t rs).
      + cbn [map]. f_equal. exact IH.
      + cbn [app map]. f_equal. exact IH. }
  intro Hnd. specialize (E (rows tb) Hnd).
  destruct (has_term t (rows tb)); exact E.
Qed.

Lemma record_same_entries (u : jsstring) (now : Z)
  (wt : World Table) (wm : World MemoryStore) :
  table_wf (store wt) ->
  same_entries (store wt) (store wm) ->
  (length (store (after (recordSearch u now) wm)) <= 50)%nat ->
  same_entries (store (after (recordSearch u now) wt))
               (store (after (recordSearch u now) wm)).
Proof.
  unfold same_entries. intros Hwf Hs Hlen.
  destruct (isBlank u) eqn:Hb.
  { rewrite !recordSearch_rejected; [exact Hs | now left | now left]. }
  destruct (isForbidden u) eqn:Hf.
  { rewrite !recordSearch_rejected; [exact Hs | now right | now right]. }
  destruct (recordSearch_sqlite wt u now Hb Hf) as [-> _].
  unfold after in *. rewrite recordSearch_memory in * by assumption.
  cbn [snd store] in *.
  assert (E : map entry_of_row (rows (sqlite_upsert u now (store wt)))
              = mem_upsert u now (store wm)).
  { rewrite <- Hs. apply upsert_same_entries. apply Hwf. }
  rewrite sqlite_cleanup_small; [exact E|].
  rewrite <- (length_map entry_of_row), E. exact Hlen.
Qed.

Lemma record_all_same_entries (calls : list (jsstring * Z))
  (wt : World Table) (wm : World MemoryStore) :
  table_wf (store wt) ->
  same_entries (store wt) (store wm) ->
  (length (store (record_all calls wm)) <= 50)%nat ->
  same_entries (store (record_all calls wt)) (store (record_all calls wm)).
Proof.
  revert wt wm. induction calls as [|[u now] rest IH]; intros wt wm Hwf Hs Hlen;
    [exact Hs|].
  cbn [record_all] in *. apply IH; [now apply recordSearch_wf | | exact Hlen].
  apply record_same_entries; [exact Hwf | exact Hs |].
  etransitivity; [apply memory_size_mono | exact Hlen].
Qed.

(** As long as the calls keep the store within [MAX_ENTRIES] records, the
    two handles list the same records in the same order for every limit
    that is not negative. *)
Lemma backends_agree_within_capacity (calls : list (jsstring * Z))
  (limit : Z) :
  (length (store (record_all calls boot_memory)) <= 50)%nat ->
  0 <= limit ->
  value (getHotSearches limit) (record_all calls boot_sqlite)
  = value (getHotSearches limit) (record_all calls boot_memory).
Proof.
  intros Hlen Hl.
  assert (Hs : same_entries (store (record_all calls boot_sqlite))
                            (store (record_all calls boot_memory))).
  { apply record_all_same_entries; [split; constructor | reflexivity | exact Hlen]. }
  unfold value. rewrite getHotSearches_sqlite, getHotSearches_memory.
  cbn [fst]. rewrite js_slice_from_0.
  assert (Hk : 0 <= Z.min limit MAX_ENTRIES) by (unfold MAX_ENTRIES; lia).
  rewrite firstn_clamped by exact Hk.
  unfold sql_limit. destruct (Z.ltb_spec (Z.min limit MAX_ENTRIES) 0); [lia|].
  unfold same_entries in Hs. unfold table_items, map_values.
  rewrite <- Hs, map_map. reflexivity.
Qed.

(* ================================================================== *)
(** * Further properties of the service *)

(** ** No method throws *)

Lemma recordSearch_returns (S : Type) (B : Backend S) (w : World S)
  (t : jsstring) (now : Z) :
  value (recordSearch t now) w = Ok tt.
Proof.
  unfold value, recordSearch.
  destruct (isBlank t); [reflexivity|].
  destruct (isForbidden t); [reflexivity|].
  unfold_service.
  repeat (break_match; cbn [fst snd store console]); try reflexivity;
    now destruct u.
Qed.





(** ** A handle that fails *)

(** X2. When the handle's [prepare] throws (a closed or broken database),
    nothing is written and the caller gets a well-formed answer: an
    accepted [recordSearch] leaves the store as it was, [getHotSearches]
    answers the empty list, and with the right password
    [clearHotSearches] and [deleteHotSearch] answer [success: false] with
    their failure messages. Each logs its error line. *)
Theorem X2_failed_prepare_is_absorbed :
  forall (S : Type) (B : Backend S) (w : World S) (env : option jsstring)
         (t : jsstring) (now limit : Z) (e : Exn),
    (forall sql, prepare sql = Throw e) ->
    isBlank t = false -> isForbidden t = false ->
    recordSearch t now w
      = (Ok tt, {| store := store w;
                   console := console w ++ [ErrRecordFailed] |})
    /\ getHotSearches limit w
      = (Ok [], {| store := store w;
                   console := console w ++ [ErrQueryFailed] |})
    /\ clearHotSearches env (correctPassword env) w
      = (Ok {| success := false; message := MSG_CLEAR_FAILED |},
         {| store := store w; console := console w ++ [ErrClearFailed] |})
    /\ deleteHotSearch env t (correctPassword env) w
      = (Ok {| success := false; message := MSG_DELETE_FAILED |},
         {| store := store w; console := console w ++ [ErrDeleteFailed] |}).
Proof.
  intros S B w env t now limit e Hthrow Hb Hf.
  unfold recordSearch, getHotSearches, clearHotSearches, deleteHotSearch.
  rewrite Hb, Hf, jsstring_eqb_refl. cbn [negb]. unfold_service.
  rewrite !Hthrow. cbn. repeat split; reflexivity.
Qed.

Lemma X2_failed_prepare_is_absorbed_witness :
  let w := {| store := tt; console := [] |} in
  ((forall sql, @prepare unit ClosedBackend sql = Throw SqliteError)
   /\ isBlank (lit "movie") = false /\ isForbidden (lit "movie") = false)
  /\ @recordSearch unit ClosedBackend (lit "movie") 1 w
      = (Ok tt, {| store := tt; console := [ErrRecordFailed] |})
  /\ @getHotSearches unit ClosedBackend 10 w
      = (Ok [], {| store := tt; console := [ErrQueryFailed] |})
  /\ @clearHotSearches unit ClosedBackend None (correctPassword None) w
      = (Ok {| success := false; message := MSG_CLEAR_FAILED |},
         {| store := tt; console := [ErrClearFailed] |})
  /\ @deleteHotSearch unit ClosedBackend None (lit "movie")
       (correctPassword None) w
      = (Ok {| success := false; message := MSG_DELETE_FAILED |},
         {| store := tt; console := [ErrDeleteFailed] |}).
Proof.
  split; [repeat split; reflexivity|].
  exact (X2_failed_prepare_is_absorbed unit ClosedBackend
           {| store := tt; console := [] |} None (lit "movie") 1 10
           SqliteError (fun _ => eq_refl) eq_refl eq_refl).
Defined.

(** ** Clearing and deleting with the right password *)

Lemma sqlite_prepare_clear :
  sqlite_prepare SQL_CLEAR
  = Ok {| run := Some sqlite_clear_run; all := None; get := None |}.
Proof. vm_compute. reflexivity. Qed.

Lemma sqlite_prepare_delete_term :
  sqlite_prepare SQL_DELETE_TERM
  = Ok {| run := Some sqlite_delete_term_run; all := None; get := None |}.
Proof. vm_compute. reflexivity. Qed.

Lemma clearHotSearches_memory (env : option jsstring) (w : World MemoryStore) :
  clearHotSearches env (correctPassword env) w
  = (Ok {| success := true; message := MSG_CLEARED |},
     {| store := []; console := console w ++ [LogCleared] |}).
Proof.
  unfold clearHotSearches. rewrite jsstring_eqb_refl. cbn [negb].
  unfold_service. cbn [prepare MemoryBackend].
  rewrite mem_prepare_clear. reflexivity.
Qed.

Lemma clearHotSearches_sqlite (env : option jsstring) (w : World Table) :
  clearHotSearches env (correctPassword env) w
  = (Ok {| success := true; message := MSG_CLEARED |},
     {| store := {| rows := []; seq := seq (store w) |};
        console := console w ++ [LogCleared] |}).
Proof.
  unfold clearHotSearches. rewrite jsstring_eqb_refl. cbn [negb].
  unfold_service. cbn [prepare SqliteBackend].
  rewrite sqlite_prepare_clear. reflexivity.
Qed.

Lemma getHotSearches_memory_empty (limit : Z) (w : World MemoryStore) :
  store w = [] -> value (getHotSearches limit) w = Ok [].
Proof.
  intro E. unfold value. rewrite getHotSearches_memory, E. cbn [fst].
  rewrite js_slice_from_0. cbn. now rewrite firstn_nil.
Qed.

Lemma getHotSearches_sqlite_empty (limit : Z) (w : World Table) :
  rows (store w) = [] -> value (getHotSearches limit) w = Ok [].
Proof.
  intro E. unfold value. rewrite getHotSearches_sqlite. cbn [fst].
  unfold table_items. rewrite E. cbn. unfold sql_limit.
  destruct (Z.min limit MAX_ENTRIES <? 0); [reflexivity|].
  now rewrite firstn_nil.
Qed.

(** X3. With the configured password (the default [admin123] when the
    environment variable is unset or empty), [clearHotSearches] answers
    [success: true] on either handle and empties the store: afterwards
    [getHotSearches] answers the empty list for every limit. *)
Theorem X3_clear_empties_the_store :
  forall (env : option jsstring) (limit : Z)
         (wt : World Table) (wm : World MemoryStore),
    value (clearHotSearches env (correctPassword env)) wt
      = Ok {| success := true; message := MSG_CLEARED |}
    /\ value (clearHotSearches env (correctPassword env)) wm
      = Ok {| success := true; message := MSG_CLEARED |}
    /\ rows (store (after (clearHotSearches env (correctPassword env)) wt)) = []
    /\ store (after (clearHotSearches env (correctPassword env)) wm) = []
    /\ value (getHotSearches limit)
             (after (clearHotSearches env (correctPassword env)) wt) = Ok []
    /\ value (getHotSearches limit)
             (after (clearHotSearches env (correctPassword env)) wm) = Ok []
    /\ correctPassword None = lit "admin123"
    /\ correctPassword (Some []) = lit "admin123".
Proof.
  intros env limit wt wm. unfold value, after.
  rewrite clearHotSearches_memory, clearHotSearches_sqlite. cbn [fst snd].
  repeat split; try reflexivity.
  - now apply getHotSearches_sqlite_empty.
  - now apply getHotSearches_memory_empty.
Qed.

Lemma map_delete_absent (t : jsstring) (m : MemoryStore) :
  map_get t m = None -> map_delete t m = m.
Proof.
  induction m as [|[k v] m IH]; cbn; [reflexivity|].
  destruct (jsstring_eqb k t); [discriminate|]. intro E. now rewrite IH.
Qed.

Lemma map_delete_other (k t : jsstring) (m : MemoryStore) :
  k <> t -> map_get k (map_delete t m) = map_get k m.
Proof.
  intro Hk. induction m as [|[k0 v] m IH]; cbn; [reflexivity|].
  destruct (jsstring_eqb k0 t) eqn:Et; cbn.
  - apply jsstring_eqb_eq in Et. subst k0.
    assert (En : jsstring_eqb t k = false)
      by (apply jsstring_eqb_neq; congruence).
    now rewrite En.
  - destruct (jsstring_eqb k0 k); [reflexivity|exact IH].
Qed.

Lemma map_get_not_in (t : jsstring) (m : MemoryStore) :
  ~ In t (map fst m) -> map_get t m = None.
Proof.
  induction m as [|[k v] m IH]; cbn; [reflexivity|].
  intro Hn. destruct (jsstring_eqb k t) eqn:Et.
  - apply jsstring_eqb_eq in Et. exfalso. apply Hn. now left.
  - apply IH. intro Hin. apply Hn. now right.
Qed.

Lemma map_delete_same (t : jsstring) (m : MemoryStore) :
  NoDup (map fst m) -> map_get t (map_delete t m) = None.
Proof.
  induction m as [|[k v] m IH]; cbn; [reflexivity|].
  intro Hnd. inversion Hnd as [|? ? Hnotin Hnd']; subst.
  destruct (jsstring_eqb k t) eqn:Et; cbn.
  - apply jsstring_eqb_eq in Et. subst k. now apply map_get_not_in.
  - rewrite Et. now apply IH.
Qed.

Lemma deleteHotSearch_memory (env : option jsstring) (t : jsstring)
  (w : World MemoryStore) :
  deleteHotSearch env t (correctPassword env) w
  = if map_has t (store w)
    then (Ok {| success := true; message := MSG_DELETED t |},
          {| store := map_delete t (store w);
             console := console w ++ [LogDeleted t] |})
    else (Ok {| success := false; message := MSG_NOT_FOUND |},
          {| store := map_delete t (store w); console := console w |}).
Proof.
  unfold deleteHotSearch. rewrite jsstring_eqb_refl. cbn [negb].
  unfold_service. cbn [prepare MemoryBackend].
  rewrite mem_prepare_delete_term. cbn [run mem_delete_term_run].
  now destruct (map_has t (store w)).
Qed.

Lemma filter_length_lt {A : Type} (p : A -> bool) (l : list A) (x : A) :
  In x l -> p x = false -> (length (filter p l) < length l)%nat.
Proof.
  induction l as [|a l IH]; cbn; [easy|].
  intros [-> | Hin] Hx.
  - rewrite Hx. pose proof (filter_length_le p l). lia.
  - specialize (IH Hin Hx). destruct (p a); cbn; lia.
Qed.

Lemma deleteHotSearch_sqlite (env : option jsstring) (t : jsstring)
  (w : World Table) :
  deleteHotSearch env t (correctPassword env) w
  = if has_term t (rows (store w))
    then (Ok {| success := true; message := MSG_DELETED t |},
          {| store := fst (sqlite_delete_term_run [JStr t] (store w));
             console := console w ++ [LogDeleted t] |})
    else (Ok {| success := false; message := MSG_NOT_FOUND |},
          {| store := fst (sqlite_delete_term_run [JStr t] (store w));
             console := console w |}).
Proof.
  unfold deleteHotSearch. rewrite jsstring_eqb_refl. cbn [negb].
  unfold_service. cbn [prepare SqliteBackend].
  rewrite sqlite_prepare_delete_term. cbn [run sqlite_delete_term_run fst].
  set (p := fun r => negb (jsstring_eqb (SqlRow.term r) t)).
  destruct (has_term t (rows (store w))) eqn:Hhas.
  - apply existsb_exists in Hhas as (r & Hin & Hr).
    assert (Hlt : (length (filter p (rows (store w)))
                   < length (rows (store w)))%nat).
    { apply (filter_length_lt p _ r Hin). unfold p. now rewrite Hr. }
    destruct (Z.ltb_spec 0 (Z.of_nat (length (rows (store w)))
                            - Z.of_nat (length (filter p (rows (store w))))));
      [reflexivity | lia].
  - assert (E : filter p (rows (store w)) = rows (store w)).
    { apply forallb_filter_id. apply forallb_forall. intros r Hin. unfold p.
      destruct (jsstring_eqb (SqlRow.term r) t) eqn:Er; [|reflexivity].
      assert (has_term t (rows (store w)) = true); [|congruence].
      apply existsb_exists. now exists r. }
    rewrite E, Z.sub_diag. reflexivity.
Qed.

Lemma table_lookup_has_term (t : jsstring) (tb : Table) :
  has_term t (rows tb) = is_stored (table_lookup t tb).
Proof.
  rewrite has_term_find. unfold table_lookup.
  now destruct (find _ (rows tb)).
Qed.

Lemma map_has_is_stored (t : jsstring) (m : MemoryStore) :
  map_has t m = is_stored (map_get t m).
Proof. reflexivity. Qed.

Lemma delete_rows_lookup_same (t : jsstring) (rs : list SqlRow.t) :
  find (fun r => jsstring_eqb (SqlRow.term r) t)
       (filter (fun r => negb (jsstring_eqb (SqlRow.term r) t)) rs) = None.
Proof.
  induction rs as [|r rs IH]; cbn; [reflexivity|].
  destruct (jsstring_eqb (SqlRow.term r) t) eqn:E; cbn; [exact IH|].
  now rewrite E.
Qed.

Lemma delete_rows_lookup_other (k t : jsstring) (rs : list SqlRow.t) :
  k <> t ->
  find (fun r => jsstring_eqb (SqlRow.term r) k)
       (filter (fun r => negb (jsstring_eqb (SqlRow.term r) t)) rs)
  = find (fun r => jsstring_eqb (SqlRow.term r) k) rs.
Proof.
  intro Hk. induction rs as [|r rs IH]; cbn; [reflexivity|].
  destruct (jsstring_eqb (SqlRow.term r) t) eqn:Et; cbn.
  - apply jsstring_eqb_eq in Et.
    assert (En : jsstring_eqb (SqlRow.term r) k = false)
      by (apply jsstring_eqb_neq; congruence).
    now rewrite En.
  - destruct (jsstring_eqb (SqlRow.term r) k); [reflexivity|exact IH].
Qed.

(** X4. With the right password, deleting a term that is not stored
    answers [success: false] with the not-found message and changes
    nothing, on either handle. *)
Theorem X4_delete_missing_term :
  forall (env : option jsstring) (t : jsstring)
         (wt : World Table) (wm : World MemoryStore),
    table_lookup t (store wt) = None ->
    map_get t (store wm) = None ->
    deleteHotSearch env t (correctPassword env) wt
      = (Ok {| success := false; message := MSG_NOT_FOUND |}, wt)
    /\ deleteHotSearch env t (correctPassword env) wm
      = (Ok {| success := false; message := MSG_NOT_FOUND |}, wm).
Proof.
  intros env t wt wm Ht Hm. split.
  - rewrite deleteHotSearch_sqlite, table_lookup_has_term, Ht. cbn [is_stored].
    f_equal. destruct wt as [[rs sq] c]. cbn [store console rows seq fst].
    cbn [sqlite_delete_term_run fst rows seq]. do 2 f_equal.
    apply forallb_filter_id. apply forallb_forall. intros r Hin.
    destruct (jsstring_eqb (SqlRow.term r) t) eqn:Er; [|reflexivity].
    unfold table_lookup in Ht. cbn [store rows] in Ht.
    destruct (find _ rs) eqn:Hfind; [discriminate|].
    apply (find_none _ _ Hfind) in Hin. congruence.
  - rewrite deleteHotSearch_memory, map_has_is_stored, Hm. cbn [is_stored].
    rewrite map_delete_absent by exact Hm. now destruct wm.
Qed.

Lemma X4_delete_missing_term_witness :
  let wt := record_all [(lit "movie", 1)] boot_sqlite in
  let wm := record_all [(lit "movie", 1)] boot_memory in
  (table_lookup (lit "book") (store wt) = None
   /\ map_get (lit "book") (store wm) = None)
  /\ deleteHotSearch None (lit "book") (correctPassword None) wt
      = (Ok {| success := false; message := MSG_NOT_FOUND |}, wt)
  /\ deleteHotSearch None (lit "book") (correctPassword None) wm
      = (Ok {| success := false; message := MSG_NOT_FOUND |}, wm).
Proof.
  split; [split; reflexivity|].
  exact (X4_delete_missing_term None (lit "book")
           (record_all [(lit "movie", 1)] boot_sqlite)
           (record_all [(lit "movie", 1)] boot_memory) eq_refl eq_refl).
Defined.

(** X5. With the right password, deleting a stored term answers
    [success: true] with the message naming the term; the term is no
    longer stored afterwards and the record of every other term is left
    as it was, on either handle (the memory store holding each key
    once). *)
Theorem X5_delete_stored_term :
  forall (env : option jsstring) (t : jsstring)
         (wt : World Table) (wm : World MemoryStore),
    table_lookup t (store wt) <> None ->
    map_get t (store wm) <> None ->
    NoDup (map fst (store wm)) ->
    let wt' := after (deleteHotSearch env t (correctPassword env)) wt in
    let wm' := after (deleteHotSearch env t (correctPassword env)) wm in
    value (deleteHotSearch env t (correctPassword env)) wt
      = Ok {| success := true; message := MSG_DELETED t |}
    /\ value (deleteHotSearch env t (correctPassword env)) wm
      = Ok {| success := true; message := MSG_DELETED t |}
    /\ table_lookup t (store wt') = None
    /\ map_get t (store wm') = None
    /\ forall k, k <> t ->
         table_lookup k (store wt') = table_lookup k (store wt)
         /\ map_get k (store wm') = map_get k (store wm).
Proof.
  intros env t wt wm Ht Hm Hnd wt' wm'. subst wt' wm'. unfold value, after.
  rewrite deleteHotSearch_sqlite, deleteHotSearch_memory.
  rewrite table_lookup_has_term, map_has_is_stored.
  destruct (table_lookup t (store wt)) eqn:Et; [|congruence].
  destruct (map_get t (store wm)) eqn:Em; [|congruence].
  cbn [is_stored fst snd store].
  repeat split.
  - unfold table_lookup. cbn [sqlite_delete_term_run fst rows].
    now rewrite delete_rows_lookup_same.
  - now apply map_delete_same.
  - unfold table_lookup. cbn [sqlite_delete_term_run fst rows].
    now rewrite delete_rows_lookup_other.
  - now apply map_delete_other.
Qed.

Lemma X5_delete_stored_term_witness :
  let wt := record_all [(lit "movie", 1); (lit "book", 2)] boot_sqlite in
  let wm := record_all [(lit "movie", 1); (lit "book", 2)] boot_memory in
  let wt' := after (deleteHotSearch None (lit "movie") (correctPassword None))
                   wt in
  let wm' := after (deleteHotSearch None (lit "movie") (correctPassword None))
                   wm in
  (table_lookup (lit "movie") (store wt) <> None
   /\ map_get (lit "movie") (store wm) <> None
   /\ NoDup (map fst (store wm)))
  /\ value (deleteHotSearch None (lit "movie") (correctPassword None)) wt
      = Ok {| success := true; message := MSG_DELETED (lit "movie") |}
  /\ value (deleteHotSearch None (lit "movie") (correctPassword None)) wm
      = Ok {| success := true; message := MSG_DELETED (lit "movie") |}
  /\ table_lookup (lit "movie") (store wt') = None
  /\ map_get (lit "movie") (store wm') = None
  /\ forall k, k <> lit "movie" ->
       table_lookup k (store wt') = table_lookup k (store wt)
       /\ map_get k (store wm') = map_get k (store wm).
Proof.
  assert (Ht : table_lookup (lit "movie")
                 (store (record_all [(lit "movie", 1); (lit "book", 2)]
                           boot_sqlite)) <> None)
    by (vm_compute; discriminate).
  assert (Hm : map_get (lit "movie")
                 (store (record_all [(lit "movie", 1); (lit "book", 2)]
                           boot_memory)) <> None)
    by (vm_compute; discriminate).
  assert (Hnd : NoDup (map fst (store (record_all
                  [(lit "movie", 1); (lit "book", 2)] boot_memory)))).
  { assert (E : nodup (list_eq_dec N.eq_dec)
                  (map fst (store (record_all
                     [(lit "movie", 1); (lit "book", 2)] boot_memory)))
                = map fst (store (record_all
                     [(lit "movie", 1); (lit "book", 2)] boot_memory)))
      by (vm_compute; reflexivity).
    rewrite <- E. apply NoDup_nodup. }
  split; [exact (conj Ht (conj Hm Hnd))|].
  exact (X5_delete_stored_term None (lit "movie") _ _ Ht Hm Hnd).
Defined.

(** ** What every operation does to the store *)

Lemma wrong_password_unchanged (S : Type) (B : Backend S) (w : World S)
  (env : option jsstring) (t password : jsstring) :
  jsstring_eqb password (correctPassword env) = false ->
  after (clearHotSearches env password) w = w
  /\ after (deleteHotSearch env t password) w = w.
Proof.
  intro E. unfold after, clearHotSearches, deleteHotSearch.
  rewrite E. split; reflexivity.
Qed.

Lemma do_op_sqlite_cases (env : option jsstring) (o : Op) (w : World Table) :
  store (do_op env o w) = store w
  \/ (exists t now,
        isBlank t = false /\ isForbidden t = false
        /\ store (do_op env o w)
           = sqlite_cleanup (sqlite_upsert t now (store w)))
  \/ rows (store (do_op env o w)) = []
  \/ (exists t,
        rows (store (do_op env o w))
        = filter (fun r => negb (jsstring_eqb (SqlRow.term r) t))
                 (rows (store w))).
Proof.
  destruct o as [t now | password | t password]; cbn [do_op].
  - destruct (recordSearch_sqlite_cases w t now) as [E | (Hb & Hf & E)];
      [now left | right; left; now exists t, now].
  - destruct (jsstring_eqb password (correctPassword env)) eqn:Ep.
    + apply jsstring_eqb_eq in Ep. subst password. right. right. left.
      unfold after. now rewrite clearHotSearches_sqlite.
    + left. now rewrite (proj1 (wrong_password_unchanged _ _ w env [] _ Ep)).
  - destruct (jsstring_eqb password (correctPassword env)) eqn:Ep.
    + apply jsstring_eqb_eq in Ep. subst password. right. right. right.
      exists t. unfold after. rewrite deleteHotSearch_sqlite.
      now destruct (has_term t (rows (store w))).
    + left. now rewrite (proj2 (wrong_password_unchanged _ _ w env t _ Ep)).
Qed.

Lemma do_op_memory_cases (env : option jsstring) (o : Op)
  (w : World MemoryStore) :
  store (do_op env o w) = store w
  \/ (exists t now,
        isBlank t = false /\ isForbidden t = false
        /\ store (do_op env o w) = mem_upsert t now (store w))
  \/ store (do_op env o w) = []
  \/ (exists t, store (do_op env o w) = map_delete t (store w)).
Proof.
  destruct o as [t now | password | t password]; cbn [do_op].
  - destruct (isBlank t) eqn:Hb.
    { left. apply recordSearch_rejected. now left. }
    destruct (isForbidden t) eqn:Hf.
    { left. apply recordSearch_rejected. now right. }
    right. left. exists t, now. repeat split; try assumption.
    unfold after. now rewrite recordSearch_memory.
  - destruct (jsstring_eqb password (correctPassword env)) eqn:Ep.
    + apply jsstring_eqb_eq in Ep. subst password. right. right. left.
      unfold after. now rewrite clearHotSearches_memory.
    + left. now rewrite (proj1 (wrong_password_unchanged _ _ w env [] _ Ep)).
  - destruct (jsstring_eqb password (correctPassword env)) eqn:Ep.
    + apply jsstring_eqb_eq in Ep. subst password. right. right. right.
      exists t. unfold after. rewrite deleteHotSearch_memory.
      now destruct (map_has t (store w)).
    + left. now rewrite (proj2 (wrong_password_unchanged _ _ w env t _ Ep)).
Qed.

(** *** A property of the records that the writes keep *)

Section RecordProperty.
Variable P : HotSearchItem -> Prop.
Variable t : jsstring.
Variable now : Z.
Hypothesis P_new : P (new_item t now).
Hypothesis P_touch : forall i, P i -> P (touch i now).

Lemma sqlite_upsert_Forall (tb : Table) :
  Forall P (table_items tb) -> Forall P (table_items (sqlite_upsert t now tb)).
Proof.
  unfold table_items, sqlite_upsert, sqlite_upsert_run. intro HP.
  destruct (has_term t (rows tb)); cbn [fst rows].
  - rewrite map_map. rewrite Forall_map in *.
    eapply Forall_impl; [|exact HP]. intros r Hr. cbn beta.
    destruct (jsstring_eqb (SqlRow.term r) t); [|exact Hr].
    apply (P_touch _ Hr).
  - rewrite map_app. apply Forall_app. split; [exact HP|].
    constructor; [exact P_new | constructor].
Qed.

Lemma map_set_Forall (v : HotSearchItem) (m : MemoryStore) :
  P v -> Forall P (map snd m) -> Forall P (map snd (map_set t v m)).
Proof.
  intros Hv. induction m as [|[k' v'] m IH]; cbn.
  - intros _. constructor; [exact Hv | constructor].
  - intro HP. inversion HP; subst.
    destruct (jsstring_eqb k' t); cbn; constructor; auto.
Qed.

Lemma map_get_Forall (k : jsstring) (m : MemoryStore) (i : HotSearchItem) :
  Forall P (map snd m) -> map_get k m = Some i -> P i.
Proof.
  induction m as [|[k' v'] m IH]; cbn; [discriminate|].
  intro HP. inversion HP; subst.
  destruct (jsstring_eqb k' k); [|now apply IH].
  intro E. now injection E as <-.
Qed.

Lemma mem_upsert_Forall (m : MemoryStore) :
  Forall P (map snd m) -> Forall P (map snd (mem_upsert t now m)).
Proof.
  intro HP. rewrite mem_upsert_eq. apply map_set_Forall; [|exact HP].
  destruct (map_get t m) as [i|] eqn:E; cbn [upsert_item]; [|exact P_new].
  apply P_touch. now apply (map_get_Forall t m).
Qed.
End RecordProperty.

Lemma Forall_filter {A : Type} (P : A -> Prop) (p : A -> bool) (l : list A) :
  Forall P l -> Forall P (filter p l).
Proof.
  intro HP. apply Forall_forall. intros x Hx.
  apply filter_In in Hx as [Hx _]. rewrite Forall_forall in HP. auto.
Qed.

Lemma sqlite_cleanup_Forall (P : HotSearchItem -> Prop) (tb : Table) :
  Forall P (table_items tb) -> Forall P (table_items (sqlite_cleanup tb)).
Proof.
  unfold table_items. rewrite sqlite_cleanup_rows, !Forall_map.
  apply Forall_filter.
Qed.

Lemma map_delete_Forall {A : Type} (P : A -> Prop) (f : jsstring * HotSearchItem -> A)
  (t : jsstring) (m : MemoryStore) :
  Forall P (map f m) -> Forall P (map f (map_delete t m)).
Proof.
  induction m as [|[k v] m IH]; cbn; [easy|].
  intro HP. inversion HP; subst.
  destruct (jsstring_eqb k t); [assumption|]. cbn. constructor; auto.
Qed.

Lemma map_delete_keys_incl (t : jsstring) (m : MemoryStore) :
  incl (map fst (map_delete t m)) (map fst m).
Proof.
  induction m as [|[k v] m IH]; cbn; [easy|].
  destruct (jsstring_eqb k t); cbn.
  - now apply incl_tl.
  - apply incl_cons; [now left|]. now apply incl_tl.
Qed.

Lemma map_delete_NoDup (t : jsstring) (m : MemoryStore) :
  NoDup (map fst m) -> NoDup (map fst (map_delete t m)).
Proof.
  induction m as [|[k v] m IH]; cbn; [easy|].
  intro Hnd. inversion Hnd as [|? ? Hnotin Hnd']; subst.
  destruct (jsstring_eqb k t); [assumption|]. cbn.
  constructor; [|now apply IH].
  intro Hin. apply Hnotin. now apply (map_delete_keys_incl t m).
Qed.

Lemma map_set_keys (k : jsstring) (v : HotSearchItem) (m : MemoryStore) :
  map fst (map_set k v m)
  = if map_has k m then map fst m else map fst m ++ [k].
Proof.
  unfold map_has. induction m as [|[k' v'] m IH]; cbn; [reflexivity|].
  destruct (jsstring_eqb k' k) eqn:E; cbn; [reflexivity|].
  rewrite IH. now destruct (map_get k m).
Qed.

Lemma map_get_in_keys (k : jsstring) (m : MemoryStore) :
  In k (map fst m) -> map_get k m <> None.
Proof.
  induction m as [|[k' v'] m IH]; cbn; [easy|].
  destruct (jsstring_eqb k' k) eqn:E; [discriminate|].
  intros [-> | Hin]; [|now apply IH].
  now rewrite jsstring_eqb_refl in E.
Qed.

Lemma mem_upsert_wf (t : jsstring) (now : Z) (m : MemoryStore) :
  mem_wf m -> mem_wf (mem_upsert t now m).
Proof.
  intros [Hnd Hkey]. rewrite mem_upsert_eq. split.
  - rewrite map_set_keys. unfold map_has.
    destruct (map_get t m) eqn:E; [exact Hnd|].
    apply NoDup_app; [exact Hnd | repeat constructor; easy |].
    intros a Ha [<- | []]. now apply map_get_in_keys in Ha.
  - assert (Hv : term (upsert_item t now (map_get t m)) = t).
    { destruct (map_get t m) as [i|] eqn:E; cbn; [|reflexivity].
      clear Hnd. induction m as [|[k' v'] m IH]; cbn in *; [discriminate|].
      apply Forall_cons_iff in Hkey as [Hk Hrest].
      destruct (jsstring_eqb k' t) eqn:Ek.
      - injection E as <-. apply jsstring_eqb_eq in Ek. cbn in *. congruence.
      - now apply IH. }
    revert Hv. generalize (upsert_item t now (map_get t m)). intros v Hv.
    clear Hnd. induction m as [|[k' v'] m IH]; cbn.
    + constructor; [exact Hv | constructor].
    + apply Forall_cons_iff in Hkey as [Hk Hrest].
      destruct (jsstring_eqb k' t) eqn:Ek.
      * apply jsstring_eqb_eq in Ek. constructor; [cbn; congruence | assumption].
      * constructor; [assumption | now apply IH].
Qed.

(** ** Invariants of the store under every operation *)

Lemma item_sound_new (t : jsstring) (now : Z) :
  isBlank t = false -> isForbidden t = false -> item_sound (new_item t now).
Proof. intros Hb Hf. repeat split; cbn; auto; lia. Qed.

Lemma item_sound_touch (i : HotSearchItem) (now : Z) :
  item_sound i -> item_sound (touch i now).
Proof. intros (Hb & Hf & Hs). repeat split; cbn; auto; lia. Qed.

Lemma sqlite_inv_step (env : option jsstring) (o : Op) (w : World Table) :
  table_wf (store w) ->
  (length (rows (store w)) <= 50)%nat ->
  Forall item_sound (table_items (store w)) ->
  table_wf (store (do_op env o w))
  /\ (length (rows (store (do_op env o w))) <= 50)%nat
  /\ Forall item_sound (table_items (store (do_op env o w))).
Proof.
  intros Hwf Hlen Hs.
  destruct (do_op_sqlite_cases env o w)
    as [-> | [(t & now & Hb & Hf & ->) | [E | (t & E)]]].
  - auto.
  - assert (Hwf' : table_wf (sqlite_upsert t now (store w)))
      by now apply sqlite_upsert_wf.
    repeat split.
    + now apply sqlite_cleanup_wf.
    + now apply sqlite_cleanup_wf.
    + now apply sqlite_cleanup_bound.
    + apply sqlite_cleanup_Forall, sqlite_upsert_Forall; auto.
      * now apply item_sound_new.
      * intros i. apply item_sound_touch.
  - unfold table_wf, table_items. rewrite E. cbn.
    repeat split; try constructor. lia.
  - unfold table_wf, table_items in *. rewrite E. destruct Hwf as [Hid Ht].
    repeat split.
    + now apply NoDup_map_filter.
    + now apply NoDup_map_filter.
    + pose proof (filter_length_le
                    (fun r => negb (jsstring_eqb (SqlRow.term r) t))
                    (rows (store w))). lia.
    + rewrite Forall_map in *. now apply Forall_filter.
Qed.

Lemma memory_inv_step (env : option jsstring) (o : Op)
  (w : World MemoryStore) :
  mem_wf (store w) ->
  Forall item_sound (map_values (store w)) ->
  mem_wf (store (do_op env o w))
  /\ Forall item_sound (map_values (store (do_op env o w))).
Proof.
  intros Hwf Hs. unfold map_values in *.
  destruct (do_op_memory_cases env o w)
    as [-> | [(t & now & Hb & Hf & ->) | [-> | (t & ->)]]].
  - auto.
  - split; [now apply mem_upsert_wf|].
    apply mem_upsert_Forall; auto.
    + now apply item_sound_new.
    + intros i. apply item_sound_touch.
  - repeat split; constructor.
  - destruct Hwf as [Hnd Hkey]. repeat split.
    + now apply map_delete_NoDup.
    + rewrite <- (map_id (map_delete t (store w))).
      apply map_delete_Forall. now rewrite map_id.
    + now apply map_delete_Forall.
Qed.

Lemma sqlite_inv_run (env : option jsstring) (ops : list Op) (w : World Table) :
  table_wf (store w) ->
  (length (rows (store w)) <= 50)%nat ->
  Forall item_sound (table_items (store w)) ->
  table_wf (store (run_ops env ops w))
  /\ (length (rows (store (run_ops env ops w))) <= 50)%nat
  /\ Forall item_sound (table_items (store (run_ops env ops w))).
Proof.
  revert w. induction ops as [|o ops IH]; intros w Hwf Hlen Hs; [auto|].
  cbn [run_ops].
  destruct (sqlite_inv_step env o w Hwf Hlen Hs) as (H1 & H2 & H3).
  now apply IH.
Qed.

Lemma memory_inv_run (env : option jsstring) (ops : list Op)
  (w : World MemoryStore) :
  mem_wf (store w) ->
  Forall item_sound (map_values (store w)) ->
  mem_wf (store (run_ops env ops w))
  /\ Forall item_sound (map_values (store (run_ops env ops w))).
Proof.
  revert w. induction ops as [|o ops IH]; intros w Hwf Hs; [auto|].
  cbn [run_ops].
  destruct (memory_inv_step env o w Hwf Hs) as (H1 & H2).
  now apply IH.
Qed.

Lemma boot_sqlite_inv :
  table_wf (store boot_sqlite)
  /\ (length (rows (store boot_sqlite)) <= 50)%nat
  /\ Forall item_sound (table_items (store boot_sqlite)).
Proof. cbn. repeat split; try constructor. lia. Qed.

Lemma boot_memory_inv :
  mem_wf (store boot_memory)
  /\ Forall item_sound (map_values (store boot_memory)).
Proof. cbn. repeat split; constructor. Qed.

(** X6. On the durable handle the capacity holds under every operation:
    from a table with unique rowids and terms and at most [MAX_ENTRIES]
    rows, any sequence of record, clear and delete calls, with right or
    wrong passwords, leaves at most [MAX_ENTRIES] rows. *)
Theorem X6_durable_capacity :
  forall (env : option jsstring) (ops : list Op) (w : World Table),
    table_wf (store w) ->
    (length (rows (store w)) <= 50)%nat ->
    (length (rows (store (run_ops env ops w))) <= 50)%nat.
Proof.
  intros env ops. induction ops as [|o ops IH]; intros w Hwf Hlen; [exact Hlen|].
  cbn [run_ops].
  destruct (do_op_sqlite_cases env o w)
    as [E | [(t & now & Hb & Hf & E) | [E | (t & E)]]].
  - apply IH; rewrite E; assumption.
  - apply IH; rewrite E.
    + now apply sqlite_cleanup_wf, sqlite_upsert_wf.
    + now apply sqlite_cleanup_bound, sqlite_upsert_wf.
  - apply IH; unfold table_wf; rewrite E; cbn; [split; constructor | lia].
  - apply IH; unfold table_wf in *; rewrite E.
    + destruct Hwf. split; now apply NoDup_map_filter.
    + pose proof (filter_length_le
                    (fun r => negb (jsstring_eqb (SqlRow.term r) t))
                    (rows (store w))). lia.
Qed.

Lemma X6_durable_capacity_witness :
  let ops := map (fun c => OpRecord (fst c) (snd c)) (distinct_calls 60) in
  (table_wf (store boot_sqlite)
   /\ (length (rows (store boot_sqlite)) <= 50)%nat)
  /\ (length (rows (store (run_ops None ops boot_sqlite))) <= 50)%nat.
Proof.
  assert (Hwf : table_wf (store boot_sqlite)) by (split; constructor).
  assert (Hlen : (length (rows (store boot_sqlite)) <= 50)%nat) by (cbn; lia).
  split; [exact (conj Hwf Hlen)|].
  exact (X6_durable_capacity None _ boot_sqlite Hwf Hlen).
Defined.

(** X7. Starting from an empty store, after any sequence of record, clear
    and delete calls the store is well formed on either handle: no term is
    stored twice (and on the durable handle no rowid), every record of the
    fallback is filed under its own term, and every stored record has a
    score of at least 1 and a term that passed the blank test and the
    moderation filter. *)
Theorem X7_store_invariants :
  forall (env : option jsstring) (ops : list Op),
    table_wf (store (run_ops env ops boot_sqlite))
    /\ Forall item_sound (table_items (store (run_ops env ops boot_sqlite)))
    /\ mem_wf (store (run_ops env ops boot_memory))
    /\ Forall item_sound (map_values (store (run_ops env ops boot_memory))).
Proof.
  intros env ops.
  destruct boot_sqlite_inv as (H1 & H2 & H3).
  destruct boot_memory_inv as (H4 & H5).
  destruct (sqlite_inv_run env ops boot_sqlite H1 H2 H3) as (? & ? & ?).
  destruct (memory_inv_run env ops boot_memory H4 H5) as (? & ?).
  auto.
Qed.

(** ** What a listing shows of the store *)

Lemma insert_sorted_perm {A : Type} (leb : A -> A -> bool) (x : A)
  (l : list A) :
  Permutation (insert_sorted leb x l) (x :: l).
Proof.
  induction l as [|y l IH]; cbn; [reflexivity|].
  destruct (leb x y); [reflexivity|].
  rewrite IH. apply perm_swap.
Qed.

Lemma stable_sort_perm {A : Type} (leb : A -> A -> bool) (l : list A) :
  Permutation (stable_sort leb l) l.
Proof.
  induction l as [|x l IH]; [reflexivity|].
  rewrite stable_sort_cons, insert_sorted_perm. now constructor.
Qed.

Lemma ranked_split (n : nat) (l : list HotSearchItem) :
  Permutation (firstn n (stable_sort item_leb l)
               ++ skipn n (stable_sort item_leb l)) l
  /\ forall a b,
       In a (firstn n (stable_sort item_leb l)) ->
       In b (skipn n (stable_sort item_leb l)) -> ranked_before a b.
Proof.
  split.
  - rewrite firstn_skipn. apply stable_sort_perm.
  - apply StronglySorted_split. apply ranked_sorted.
Qed.

Lemma listing_memory (limit : Z) (w : World MemoryStore) :
  exists l r,
    getHotSearches limit w = (Ok l, w)
    /\ Permutation (l ++ r) (map_values (store w))
    /\ forall a b, In a l -> In b r -> ranked_before a b.
Proof.
  rewrite getHotSearches_memory, js_slice_from_0.
  eexists _, _. split; [reflexivity|]. apply ranked_split.
Qed.

Lemma listing_sqlite (limit : Z) (w : World Table) :
  exists l r,
    getHotSearches limit w = (Ok l, w)
    /\ Permutation (l ++ r) (table_items (store w))
    /\ forall a b, In a l -> In b r -> ranked_before a b.
Proof.
  rewrite getHotSearches_sqlite. unfold sql_limit.
  destruct (Z.min limit MAX_ENTRIES <? 0).
  - exists (stable_sort item_leb (table_items (store w))), [].
    split; [reflexivity|]. split; [|easy].
    rewrite app_nil_r. apply stable_sort_perm.
  - eexists _, _. split; [reflexivity|]. apply ranked_split.
Qed.

(** X8. Listing is a read-only selection of the best records: for every
    limit and on either handle, [getHotSearches] leaves the store and the
    console untouched, and the records it returns together with some
    unlisted rest are exactly the stored records, every listed record
    ranking at or before every unlisted one. *)
Theorem X8_list_is_top_of_store :
  forall (limit : Z) (wt : World Table) (wm : World MemoryStore),
    (exists l r,
       getHotSearches limit wt = (Ok l, wt)
       /\ Permutation (l ++ r) (table_items (store wt))
       /\ forall a b, In a l -> In b r -> ranked_before a b)
    /\ (exists l r,
          getHotSearches limit wm = (Ok l, wm)
          /\ Permutation (l ++ r) (map_values (store wm))
          /\ forall a b, In a l -> In b r -> ranked_before a b).
Proof.
  intros limit wt wm. split; [apply listing_sqlite | apply listing_memory].
Qed.

(** X9. Moderation holds end to end: starting from an empty store, after
    any sequence of record, clear and delete calls, no record that
    [getHotSearches] returns, for any limit and on either handle, has a
    blank term or a term the moderation filter rejects. *)
Theorem X9_rejected_terms_never_listed :
  forall (env : option jsstring) (ops : list Op) (limit : Z),
    (exists l,
       value (getHotSearches limit) (run_ops env ops boot_sqlite) = Ok l
       /\ Forall (fun i => isBlank (term i) = false
                           /\ isForbidden (term i) = false) l)
    /\ (exists l,
          value (getHotSearches limit) (run_ops env ops boot_memory) = Ok l
          /\ Forall (fun i => isBlank (term i) = false
                              /\ isForbidden (term i) = false) l).
Proof.
  intros env ops limit.
  destruct boot_sqlite_inv as (H1 & H2 & H3).
  destruct boot_memory_inv as (H4 & H5).
  destruct (sqlite_inv_run env ops boot_sqlite H1 H2 H3) as (_ & _ & Hst).
  destruct (memory_inv_run env ops boot_memory H4 H5) as (_ & Hsm).
  split.
  - destruct (listing_sqlite limit (run_ops env ops boot_sqlite))
      as (l & r & E & Hp & _).
    exists l. unfold value. rewrite E. split; [reflexivity|].
    apply Forall_forall. intros i Hi. rewrite Forall_forall in Hst.
    destruct (Hst i) as (Hb & Hf & _); [|now split].
    apply (Permutation_in _ Hp). apply in_or_app. now left.
  - destruct (listing_memory limit (run_ops env ops boot_memory))
      as (l & r & E & Hp & _).
    exists l. unfold value. rewrite E. split; [reflexivity|].
    apply Forall_forall. intros i Hi. rewrite Forall_forall in Hsm.
    destruct (Hsm i) as (Hb & Hf & _); [|now split].
    apply (Permutation_in _ Hp). apply in_or_app. now left.
Qed.

(** ** Agreement of the two handles under every operation *)

Lemma delete_same_entries (t : jsstring) (rs : list SqlRow.t) :
  NoDup (map SqlRow.term rs) ->
  map entry_of_row (filter (fun r => negb (jsstring_eqb (SqlRow.term r) t)) rs)
  = map_delete t (map entry_of_row rs).
Proof.
  induction rs as [|r rs IH]; [reflexivity|].
  intro Hnd. inversion Hnd as [|? ? Hnotin Hnd']; subst.
  cbn [filter map map_delete entry_of_row fst].
  destruct (jsstring_eqb (SqlRow.term r) t) eqn:Et; cbn [negb].
  - fold entry_of_row. f_equal. apply forallb_filter_id.
    apply forallb_forall. intros r' Hin.
    destruct (jsstring_eqb (SqlRow.term r') t) eqn:Er; [|reflexivity].
    apply jsstring_eqb_eq in Et, Er. exfalso. apply Hnotin.
    rewrite Et, <- Er. now apply in_map.
  - cbn [map]. fold entry_of_row. f_equal. now apply IH.
Qed.

Lemma do_op_same_entries (env : option jsstring) (o : Op)
  (wt : World Table) (wm : World MemoryStore) :
  table_wf (store wt) ->
  same_entries (store wt) (store wm) ->
  (length (store (do_op env o wm)) <= 50)%nat ->
  same_entries (store (do_op env o wt)) (store (do_op env o wm)).
Proof.
  intros Hwf Hs Hlen.
  destruct o as [t now | password | t password]; cbn [do_op] in *.
  - now apply record_same_entries.
  - destruct (jsstring_eqb password (correctPassword env)) eqn:Ep.
    + apply jsstring_eqb_eq in Ep. subst password. unfold after.
      rewrite clearHotSearches_sqlite, clearHotSearches_memory. reflexivity.
    + rewrite (proj1 (wrong_password_unchanged _ _ wt env [] _ Ep)).
      now rewrite (proj1 (wrong_password_unchanged _ _ wm env [] _ Ep)).
  - destruct (jsstring_eqb password (correctPassword env)) eqn:Ep.
    + apply jsstring_eqb_eq in Ep. subst password. unfold after.
      rewrite deleteHotSearch_sqlite, deleteHotSearch_memory.
      assert (E : same_entries
                    (fst (sqlite_delete_term_run [JStr t] (store wt)))
                    (map_delete t (store wm))).
      { unfold same_entries in *. cbn [sqlite_delete_term_run fst rows].
        rewrite <- Hs. apply delete_same_entries. apply Hwf. }
      now destruct (has_term t (rows (store wt))), (map_has t (store wm)).
    + rewrite (proj2 (wrong_password_unchanged _ _ wt env t _ Ep)).
      now rewrite (proj2 (wrong_password_unchanged _ _ wm env t _ Ep)).
Qed.

Lemma do_op_wf (env : option jsstring) (o : Op) (w : World Table) :
  table_wf (store w) -> table_wf (store (do_op env o w)).
Proof.
  intro Hwf.
  destruct (do_op_sqlite_cases env o w)
    as [-> | [(t & now & Hb & Hf & ->) | [E | (t & E)]]].
  - exact Hwf.
  - now apply sqlite_cleanup_wf, sqlite_upsert_wf.
  - unfold table_wf. rewrite E. split; constructor.
  - unfold table_wf in *. rewrite E. destruct Hwf.
    split; now apply NoDup_map_filter.
Qed.

Lemma run_ops_same_entries (env : option jsstring) (ops : list Op)
  (wt : World Table) (wm : World MemoryStore) :
  table_wf (store wt) ->
  same_entries (store wt) (store wm) ->
  within_capacity env ops wm = true ->
  same_entries (store (run_ops env ops wt)) (store (run_ops env ops wm)).
Proof.
  revert wt wm. induction ops as [|o ops IH]; intros wt wm Hwf Hs Hc;
    [exact Hs|].
  cbn [within_capacity] in Hc. apply andb_true_iff in Hc as [Hlen Hc].
  apply Nat.leb_le in Hlen. cbn [run_ops].
  apply IH; [now apply do_op_wf | now apply do_op_same_entries | exact Hc].
Qed.

(** X10. As long as the operations never take the fallback above
    [MAX_ENTRIES] records, the two handles cannot be told apart by a
    listing: after the same sequence of record, clear and delete calls
    from an empty store, [getHotSearches] returns the same records in the
    same order on both, for every limit that is not negative. *)
Theorem X10_backends_agree_within_capacity :
  forall (env : option jsstring) (ops : list Op) (limit : Z),
    within_capacity env ops boot_memory = true ->
    0 <= limit ->
    value (getHotSearches limit) (run_ops env ops boot_sqlite)
    = value (getHotSearches limit) (run_ops env ops boot_memory).
Proof.
  intros env ops limit Hc Hl.
  assert (Hs : same_entries (store (run_ops env ops boot_sqlite))
                            (store (run_ops env ops boot_memory))).
  { apply run_ops_same_entries;
      [split; constructor | reflexivity | exact Hc]. }
  unfold value. rewrite getHotSearches_sqlite, getHotSearches_memory.
  cbn [fst]. rewrite js_slice_from_0.
  assert (Hk : 0 <= Z.min limit MAX_ENTRIES) by (unfold MAX_ENTRIES; lia).
  rewrite firstn_clamped by exact Hk.
  unfold sql_limit. destruct (Z.ltb_spec (Z.min limit MAX_ENTRIES) 0); [lia|].
  unfold same_entries in Hs. unfold table_items, map_values.
  rewrite <- Hs, map_map. reflexivity.
Qed.

Lemma X10_backends_agree_within_capacity_witness :
  let ops := [OpRecord (lit "movie-x") 1; OpRecord (lit "movie-y") 2;
              OpRecord (lit "movie-x") 3;
              OpDelete (lit "movie-y") (lit "admin123");
              OpRecord (lit "movie-z") 4; OpClear (lit "wrong");
              OpRecord (lit "movie-y") 5] in
  (within_capacity None ops boot_memory = true /\ 0 <= 2)
  /\ value (getHotSearches 2) (run_ops None ops boot_sqlite)
     = value (getHotSearches 2) (run_ops None ops boot_memory).
Proof.
  split; [split; [vm_compute; reflexivity | lia]|].
  exact (X10_backends_agree_within_capacity None
           [OpRecord (lit "movie-x") 1; OpRecord (lit "movie-y") 2;
            OpRecord (lit "movie-x") 3;
            OpDelete (lit "movie-y") (lit "admin123");
            OpRecord (lit "movie-z") 4; OpClear (lit "wrong");
            OpRecord (lit "movie-y") 5] 2
           ltac:(vm_compute; reflexivity) ltac:(lia)).
Defined.

(** ** The fallback never evicts *)

Lemma map_set_length_absent (k : jsstring) (v : HotSearchItem)
  (m : MemoryStore) :
  map_get k m = None -> length (map_set k v m) = Datatypes.S (length m).
Proof.
  induction m as [|[k' v'] m IH]; cbn; [reflexivity|].
  destruct (jsstring_eqb k' k); [discriminate|]. intro E. cbn. now rewrite IH.
Qed.

(** X11. On the memory fallback an accepted [recordSearch] writes the
    record and then skips the clean-up, whatever the size of the store:
    the clean-up statement has no [run], the failure is caught and
    logged. No stored term is lost, and a term that was not stored makes
    the store one record larger. *)
Theorem X11_fallback_never_evicts :
  forall (t : jsstring) (now : Z) (w : World MemoryStore),
    isBlank t = false -> isForbidden t = false ->
    recordSearch t now w
      = (Ok tt, {| store := mem_upsert t now (store w);
                   console := console w
                              ++ [DebugCleanupSkipped; LogRecorded t] |})
    /\ (forall k, map_get k (store w) <> None ->
                  map_get k (mem_upsert t now (store w)) <> None)
    /\ (map_get t (store w) = None ->
        length (mem_upsert t now (store w)) = Datatypes.S (length (store w))).
Proof.
  intros t now w Hb Hf. repeat split.
  - rewrite recordSearch_memory by assumption. now rewrite <- app_assoc.
  - intros k Hk. destruct (list_eq_dec N.eq_dec k t) as [-> | Hne].
    + rewrite mem_upsert_same. discriminate.
    + now rewrite mem_upsert_other.
  - intro Hn. rewrite mem_upsert_eq. now apply map_set_length_absent.
Qed.

Lemma X11_fallback_never_evicts_witness :
  let w := record_all (distinct_calls 50) boot_memory in
  (isBlank (lit "one-more") = false /\ isForbidden (lit "one-more") = false)
  /\ recordSearch (lit "one-more") 50 w
      = (Ok tt, {| store := mem_upsert (lit "one-more") 50 (store w);
                   console := console w
                              ++ [DebugCleanupSkipped;
                                  LogRecorded (lit "one-more")] |})
  /\ (forall k, map_get k (store w) <> None ->
                map_get k (mem_upsert (lit "one-more") 50 (store w)) <> None)
  /\ (map_get (lit "one-more") (store w) = None ->
      length (mem_upsert (lit "one-more") 50 (store w))
      = Datatypes.S (length (store w))).
Proof.
  split; [split; reflexivity|].
  exact (X11_fallback_never_evicts (lit "one-more") 50 _ eq_refl eq_refl).
Defined.

(** ** The dispatch of the mock *)

(** X12. Whatever else a statement text contains, the mock's [prepare]
    answers every text that holds [SELECT] and [FROM hot_searches] but not
    [INSERT INTO] with an object that has no [run] method: such a text
    never reaches the DELETE branches. The clean-up text of the service is
    one of them. *)
Theorem X12_select_shadows_delete :
  forall sql : jsstring,
    includes sql (lit "INSERT INTO") = false ->
    includes sql (lit "SELECT") = true ->
    includes sql (lit "FROM hot_searches") = true ->
    run (mem_prepare sql) = None.
Proof.
  intros sql Hi Hs Hf. unfold mem_prepare. rewrite Hi, Hs, Hf.
  now destruct (includes sql (lit "SELECT COUNT(*)")).
Qed.

Lemma X12_select_shadows_delete_witness :
  (includes SQL_CLEANUP (lit "INSERT INTO") = false
   /\ includes SQL_CLEANUP (lit "SELECT") = true
   /\ includes SQL_CLEANUP (lit "FROM hot_searches") = true
   /\ includes SQL_CLEANUP (lit "DELETE FROM hot_searches") = true)
  /\ run (mem_prepare SQL_CLEANUP) = None.
Proof.
  split; [repeat split; vm_compute; reflexivity|].
  exact (X12_select_shadows_delete SQL_CLEANUP
           ltac:(vm_compute; reflexivity) ltac:(vm_compute; reflexivity)
           ltac:(vm_compute; reflexivity)).
Defined.

(** ** Timestamps under a clock that does not run backwards *)

Lemma admin_sqlite_Forall (P : HotSearchItem -> Prop)
  (env : option jsstring) (o : Op) (w : World Table) :
  (forall t now, o <> OpRecord t now) ->
  Forall P (table_items (store w)) ->
  Forall P (table_items (store (do_op env o w))).
Proof.
  intros Ho HP. destruct o as [t now | password | t password];
    [now destruct (Ho t now) | |]; cbn [do_op].
  - destruct (jsstring_eqb password (correctPassword env)) eqn:Ep.
    + apply jsstring_eqb_eq in Ep. subst password. unfold after.
      rewrite clearHotSearches_sqlite. constructor.
    + now rewrite (proj1 (wrong_password_unchanged _ _ w env [] _ Ep)).
  - destruct (jsstring_eqb password (correctPassword env)) eqn:Ep.
    + apply jsstring_eqb_eq in Ep. subst password. unfold after.
      rewrite deleteHotSearch_sqlite.
      assert (E : Forall P (table_items
                    (fst (sqlite_delete_term_run [JStr t] (store w))))).
      { unfold table_items in *. cbn [sqlite_delete_term_run fst rows].
        rewrite Forall_map in *. now apply Forall_filter. }
      now destruct (has_term t (rows (store w))).
    + now rewrite (proj2 (wrong_password_unchanged _ _ w env t _ Ep)).
Qed.

Lemma admin_memory_Forall (P : HotSearchItem -> Prop)
  (env : option jsstring) (o : Op) (w : World MemoryStore) :
  (forall t now, o <> OpRecord t now) ->
  Forall P (map_values (store w)) ->
  Forall P (map_values (store (do_op env o w))).
Proof.
  intros Ho HP. destruct o as [t now | password | t password];
    [now destruct (Ho t now) | |]; cbn [do_op].
  - destruct (jsstring_eqb password (correctPassword env)) eqn:Ep.
    + apply jsstring_eqb_eq in Ep. subst password. unfold after.
      rewrite clearHotSearches_memory. constructor.
    + now rewrite (proj1 (wrong_password_unchanged _ _ w env [] _ Ep)).
  - destruct (jsstring_eqb password (correctPassword env)) eqn:Ep.
    + apply jsstring_eqb_eq in Ep. subst password. unfold after.
      rewrite deleteHotSearch_memory.
      assert (E : Forall P (map_values (map_delete t (store w))))
        by now apply map_delete_Forall.
      now destruct (map_has t (store w)).
    + now rewrite (proj2 (wrong_password_unchanged _ _ w env t _ Ep)).
Qed.

Lemma times_within_weaken (T T' : Z) (l : list HotSearchItem) :
  T <= T' -> Forall (times_within T) l -> Forall (times_within T') l.
Proof.
  intros HT. apply Forall_impl. unfold times_within. intros i. lia.
Qed.

Lemma record_sqlite_times (t : jsstring) (now T : Z) (w : World Table) :
  T <= now ->
  Forall (times_within T) (table_items (store w)) ->
  Forall (times_within now)
         (table_items (store (after (recordSearch t now) w))).
Proof.
  intros HT HP. apply (times_within_weaken T now) in HP; [|exact HT].
  destruct (recordSearch_sqlite_cases w t now) as [-> | (_ & _ & ->)];
    [exact HP|].
  apply sqlite_cleanup_Forall, sqlite_upsert_Forall; [| |exact HP].
  - unfold times_within. cbn. lia.
  - unfold times_within. cbn. intros i. lia.
Qed.

Lemma record_memory_times (t : jsstring) (now T : Z) (w : World MemoryStore) :
  T <= now ->
  Forall (times_within T) (map_values (store w)) ->
  Forall (times_within now)
         (map_values (store (after (recordSearch t now) w))).
Proof.
  intros HT HP. apply (times_within_weaken T now) in HP; [|exact HT].
  destruct (isBlank t) eqn:Hb.
  { rewrite recordSearch_rejected; [exact HP | now left]. }
  destruct (isForbidden t) eqn:Hf.
  { rewrite recordSearch_rejected; [exact HP | now right]. }
  unfold after. rewrite recordSearch_memory by assumption. cbn [snd store].
  apply mem_upsert_Forall; [| |exact HP].
  - unfold times_within. cbn. lia.
  - unfold times_within. cbn. intros i. lia.
Qed.

Lemma run_sqlite_times (env : option jsstring) (ops : list Op)
  (w : World Table) (T : Z) :
  Forall (times_within T) (table_items (store w)) ->
  Forall (fun x => T <= x) (op_times ops) ->
  StronglySorted Z.le (op_times ops) ->
  exists T', Forall (times_within T')
                    (table_items (store (run_ops env ops w))).
Proof.
  revert w T. induction ops as [|o ops IH]; intros w T HP HT Hs;
    [now exists T|].
  cbn [run_ops]. destruct o as [t now | password | t password].
  - cbn [op_times] in *. inversion HT; subst. inversion Hs; subst.
    apply (IH _ now); auto. now apply (record_sqlite_times t now T).
  - cbn [op_times] in *. apply (IH _ T); auto.
    now apply admin_sqlite_Forall.
  - cbn [op_times] in *. apply (IH _ T); auto.
    now apply admin_sqlite_Forall.
Qed.

Lemma run_memory_times (env : option jsstring) (ops : list Op)
  (w : World MemoryStore) (T : Z) :
  Forall (times_within T) (map_values (store w)) ->
  Forall (fun x => T <= x) (op_times ops) ->
  StronglySorted Z.le (op_times ops) ->
  exists T', Forall (times_within T')
                    (map_values (store (run_ops env ops w))).
Proof.
  revert w T. induction ops as [|o ops IH]; intros w T HP HT Hs;
    [now exists T|].
  cbn [run_ops]. destruct o as [t now | password | t password].
  - cbn [op_times] in *. inversion HT; subst. inversion Hs; subst.
    apply (IH _ now); auto. now apply (record_memory_times t now T).
  - cbn [op_times] in *. apply (IH _ T); auto.
    now apply admin_memory_Forall.
  - cbn [op_times] in *. apply (IH _ T); auto.
    now apply admin_memory_Forall.
Qed.

(** X13. When the clock never runs backwards over the record calls,
    every stored record has [createdAt <= lastSearched]: this holds on
    either handle after any sequence of record, clear and delete calls
    from an empty store. *)
Theorem X13_created_before_last_searched :
  forall (env : option jsstring) (ops : list Op),
    StronglySorted Z.le (op_times ops) ->
    Forall (fun i => createdAt i <= lastSearched i)
           (table_items (store (run_ops env ops boot_sqlite)))
    /\ Forall (fun i => createdAt i <= lastSearched i)
              (map_values (store (run_ops env ops boot_memory))).
Proof.
  intros env ops Hs.
  assert (HT : exists T, Forall (fun x => T <= x) (op_times ops)).
  { destruct (op_times ops) as [|x l]; [exists 0; constructor|].
    exists x. inversion Hs; subst. constructor; [lia | assumption]. }
  destruct HT as (T & HT). split.
  - destruct (run_sqlite_times env ops boot_sqlite T) as (T' & H');
      [constructor | exact HT | exact Hs |].
    eapply Forall_impl; [|exact H']. unfold times_within. intros i. lia.
  - destruct (run_memory_times env ops boot_memory T) as (T' & H');
      [constructor | exact HT | exact Hs |].
    eapply Forall_impl; [|exact H']. unfold times_within. intros i. lia.
Qed.

Lemma X13_created_before_last_searched_witness :
  let ops := [OpRecord (lit "movie-x") 1; OpRecord (lit "movie-y") 1;
              OpDelete (lit "movie-y") (lit "admin123");
              OpRecord (lit "movie-x") 7] in
  StronglySorted Z.le (op_times ops)
  /\ Forall (fun i => createdAt i <= lastSearched i)
            (table_items (store (run_ops None ops boot_sqlite)))
  /\ Forall (fun i => createdAt i <= lastSearched i)
            (map_values (store (run_ops None ops boot_memory))).
Proof.
  assert (Hs : StronglySorted Z.le
                 (op_times [OpRecord (lit "movie-x") 1;
                            OpRecord (lit "movie-y") 1;
                            OpDelete (lit "movie-y") (lit "admin123");
                            OpRecord (lit "movie-x") 7])).
  { cbn. repeat (constructor; try lia). }
  split; [exact Hs|].
  exact (X13_created_before_last_searched None _ Hs).
Defined.

(** ** Eviction on the durable handle *)

(** X14. On the durable handle an accepted [recordSearch] evicts from the
    bottom of the ranking only: the rows left are rows of the table as
    written by the upsert, unchanged, and every row left ranks at or
    before every row that was deleted. *)
Theorem X14_durable_eviction_drops_lowest :
  forall (t : jsstring) (now : Z) (w : World Table),
    isBlank t = false -> isForbidden t = false ->
    table_wf (store w) ->
    let written := sqlite_upsert t now (store w) in
    let w' := after (recordSearch t now) w in
    incl (rows (store w')) (rows written)
    /\ forall r d,
         In r (rows (store w')) ->
         In d (rows written) -> ~ In d (rows (store w')) ->
         ranked_before (item_of_row r) (item_of_row d).
Proof.
  intros t now w Hb Hf Hwf written w'. subst written w'.
  destruct (recordSearch_sqlite w t now Hb Hf) as [-> _]. split.
  - rewrite sqlite_cleanup_rows. intros r Hr.
    now apply filter_In in Hr as [Hr _].
  - intros r d. apply sqlite_cleanup_drops_lowest.
    now apply sqlite_upsert_wf.
Qed.

Lemma X14_durable_eviction_drops_lowest_witness :
  let w := run_ops None
             (map (fun c => OpRecord (fst c) (snd c)) (distinct_calls 50))
             boot_sqlite in
  let written := sqlite_upsert (lit "one-more") 50 (store w) in
  let w' := after (recordSearch (lit "one-more") 50) w in
  (isBlank (lit "one-more") = false /\ isForbidden (lit "one-more") = false
   /\ table_wf (store w))
  /\ incl (rows (store w')) (rows written)
  /\ forall r d,
       In r (rows (store w')) ->
       In d (rows written) -> ~ In d (rows (store w')) ->
       ranked_before (item_of_row r) (item_of_row d).
Proof.
  destruct boot_sqlite_inv as (H1 & H2 & H3).
  destruct (sqlite_inv_run None
              (map (fun c => OpRecord (fst c) (snd c)) (distinct_calls 50))
              boot_sqlite H1 H2 H3) as (Hwf & _ & _).
  split; [exact (conj eq_refl (conj eq_refl Hwf))|].
  exact (X14_durable_eviction_drops_lowest (lit "one-more") 50 _
           eq_refl eq_refl Hwf).
Defined.

(** ** Statistics *)

Lemma js_slice_to_end {A : Type} (l : list A) : js_slice 0 None l = l.
Proof.
  unfold js_slice.
  assert (E : relative_index (Z.of_nat (length l)) 0 = 0).
  { unfold relative_index. cbn. lia. }
  rewrite E, Z.sub_0_r, Nat2Z.id. cbn [Z.to_nat skipn]. apply firstn_all.
Qed.

(** [all()] of the mock is [all(limit)] with a limit that reaches the end
    of the array, branch by branch. *)
Lemma mem_all0_coherent (sql : jsstring) :
  match all (mem_prepare sql), mem_all0 sql with
  | Some f, Some g => forall m, g m = f (Z.of_nat (length m)) m
  | None, None => True
  | _, _ => False
  end.
Proof.
  unfold mem_prepare, mem_all0.
  repeat (break_match; cbn [all]); try exact I; try reflexivity.
  intro m. unfold mem_select_all. f_equal.
  rewrite js_slice_to_end, js_slice_from_0.
  unfold js_sort. rewrite stable_sort_length. unfold map_values.
  rewrite length_map. unfold relative_index.
  destruct (Z.ltb_spec (Z.of_nat (length m)) 0); [lia|].
  rewrite Z.min_id, Nat2Z.id. symmetry. apply firstn_all2.
  rewrite stable_sort_length, length_map. lia.
Qed.

Lemma mem_prepare_count :
  mem_prepare SQL_COUNT
  = {| run := None; all := None; get := Some (fun m => Some (map_size m)) |}.
Proof. vm_compute. reflexivity. Qed.

Lemma sqlite_prepare_count :
  sqlite_prepare SQL_COUNT
  = Ok {| run := None; all := None;
          get := Some (fun t => Some (Z.of_nat (length (rows t)))) |}.
Proof. vm_compute. reflexivity. Qed.

Lemma mem_all0_top10 :
  mem_all0 SQL_TOP10
  = Some (fun m =>
      map (fun item => {| term := term item; score := score item;
                          lastSearched := lastSearched item;
                          createdAt := createdAt item |})
          (js_slice 0 None (js_sort compareItems (map_values m)))).
Proof. vm_compute. reflexivity. Qed.

Lemma sqlite_all0_top10 :
  sqlite_all0 SQL_TOP10
  = Ok (Some (fun t => map item_of_row (select_ranked 10 (rows t)))).
Proof. vm_compute. reflexivity. Qed.

(** X15. [getStats] never changes the store. On the durable handle it
    answers the number of rows and the ten best-ranked records, the list
    [getHotSearches(10)] returns. On the memory fallback it answers the
    number of records and, as [topTerms], every stored record in ranking
    order: the mock does not read the [LIMIT 10] of the text, so
    [topTerms] is as long as [total]. *)
Theorem X15_getStats :
  forall (wt : World Table) (wm : World MemoryStore),
    (exists top,
       getStats wt
         = (Ok ({| total := Z.of_nat (length (rows (store wt)));
                   topTerms := top |}, []), wt)
       /\ value (getHotSearches 10) wt = Ok top)
    /\ getStats wm
       = (Ok ({| total := Z.of_nat (length (store wm));
                 topTerms := stable_sort item_leb (map_values (store wm)) |},
              []), wm)
    /\ length (stable_sort item_leb (map_values (store wm)))
       = length (store wm).
Proof.
  intros wt wm. repeat split.
  - eexists. split.
    + unfold getStats, call_get. unfold_service.
      cbn [prepare SqliteBackend prepare_all0 SqliteUnboundAll].
      rewrite sqlite_prepare_count, sqlite_all0_top10. cbn [get].
      rewrite copy_items. reflexivity.
    + unfold value. rewrite getHotSearches_sqlite. cbn [fst].
      unfold select_ranked, sql_limit, table_items.
      change (Z.min 10 MAX_ENTRIES <? 0) with false.
      change (10 <? 0) with false. cbn iota.
      change (Z.to_nat (Z.min 10 MAX_ENTRIES)) with (Z.to_nat 10).
      now rewrite <- ranked_rows, firstn_map.
  - unfold getStats, call_get. unfold_service.
    cbn [prepare MemoryBackend prepare_all0 MemoryUnboundAll].
    rewrite mem_prepare_count, mem_all0_top10. cbn [get].
    rewrite !copy_items, js_slice_to_end. unfold js_sort.
    rewrite (stable_sort_ext _ item_leb _ compareItems_leb). reflexivity.
  - rewrite stable_sort_length. unfold map_values. apply length_map.
Qed.

(** ** The POST handlers *)

(** X16. The record endpoint reports success for every non-empty term,
    whether or not the service stores it: over any handle the answer is
    code 0 with message [success] and the world is the one [recordSearch]
    leaves, so a whitespace-only or forbidden term is answered with
    success although nothing is stored. A missing body, a missing term or
    an empty term is answered with code -1 and the missing-term message,
    and a body that cannot be read with code -1 and the failure message,
    without touching the store. *)
Theorem X16_record_endpoint :
  forall (S : Type) (B : Backend S) (w : World S) (t : jsstring) (now : Z)
         (e : Exn),
    t <> [] ->
    post_hot_searches (Ok (Some (Some t))) now w
      = (({| Api.code := 0; Api.message := MSG_API_SUCCESS |}, []),
         after (recordSearch t now) w)
    /\ (isBlank t = true \/ isForbidden t = true ->
        store (snd (post_hot_searches (Ok (Some (Some t))) now w)) = store w)
    /\ (forall b, In b [None; Some None; Some (Some [])] ->
          post_hot_searches (Ok b) now w
          = (({| Api.code := -1; Api.message := MSG_API_MISSING_TERM |}, []),
             w))
    /\ post_hot_searches (Throw e) now w
       = (({| Api.code := -1; Api.message := MSG_API_RECORD_FAILED |},
           [ErrApiRecord]), w).
Proof.
  intros S B w t now e Ht.
  assert (E : post_hot_searches (Ok (Some (Some t))) now w
              = (({| Api.code := 0; Api.message := MSG_API_SUCCESS |}, []),
                 after (recordSearch t now) w)).
  { unfold post_hot_searches, field_of.
    destruct t as [|c s]; [congruence|].
    pose proof (recordSearch_returns S B w (c :: s) now) as Hr.
    unfold value, after in *.
    destruct (recordSearch (c :: s) now w) as [r w']. cbn in *.
    now rewrite Hr. }
  repeat split.
  - exact E.
  - intro Hrej. rewrite E. cbn [snd]. now apply recordSearch_rejected.
  - intros b [<- | [<- | [<- | []]]]; reflexivity.
Qed.

Lemma X16_record_endpoint_witness :
  let w := boot_memory in
  lit "   " <> []
  /\ post_hot_searches (Ok (Some (Some (lit "   ")))) 1 w
      = (({| Api.code := 0; Api.message := MSG_API_SUCCESS |}, []),
         after (recordSearch (lit "   ") 1) w)
  /\ (isBlank (lit "   ") = true \/ isForbidden (lit "   ") = true ->
      store (snd (post_hot_searches (Ok (Some (Some (lit "   ")))) 1 w))
      = store w)
  /\ (forall b, In b [None; Some None; Some (Some [])] ->
        post_hot_searches (Ok b) 1 w
        = (({| Api.code := -1; Api.message := MSG_API_MISSING_TERM |}, []),
           w))
  /\ post_hot_searches (Throw TypeError) 1 w
     = (({| Api.code := -1; Api.message := MSG_API_RECORD_FAILED |},
         [ErrApiRecord]), w).
Proof.
  assert (Hne : lit "   " <> []) by (vm_compute; discriminate).
  split; [exact Hne|].
  exact (X16_record_endpoint MemoryStore MemoryBackend boot_memory
           (lit "   ") 1 TypeError Hne).
Defined.

(** X17. The clear endpoint, on either handle: with a non-empty password
    equal to the configured one it answers code 0 with the cleared
    message and the store is empty afterwards; with any other non-empty
    password it answers code -1 with the wrong-password message and
    changes nothing; with no body, no password or an empty password it
    answers code -1 with the missing-password message and changes
    nothing. *)
Theorem X17_clear_endpoint :
  forall (env : option jsstring) (password : jsstring)
         (wt : World Table) (wm : World MemoryStore),
    password <> [] ->
    (password = correctPassword env ->
       fst (fst (post_clear_hot_searches env (Ok (Some (Some password))) wt))
         = {| Api.code := 0; Api.message := MSG_CLEARED |}
       /\ fst (fst (post_clear_hot_searches env (Ok (Some (Some password))) wm))
         = {| Api.code := 0; Api.message := MSG_CLEARED |}
       /\ rows (store (snd (post_clear_hot_searches env
                              (Ok (Some (Some password))) wt))) = []
       /\ store (snd (post_clear_hot_searches env
                        (Ok (Some (Some password))) wm)) = [])
    /\ (password <> correctPassword env ->
          post_clear_hot_searches env (Ok (Some (Some password))) wt
            = (({| Api.code := -1; Api.message := MSG_WRONG_PASSWORD |}, []),
               wt)
          /\ post_clear_hot_searches env (Ok (Some (Some password))) wm
            = (({| Api.code := -1; Api.message := MSG_WRONG_PASSWORD |}, []),
               wm))
    /\ (forall b, In b [None; Some None; Some (Some [])] ->
          post_clear_hot_searches env (Ok b) wt
            = (({| Api.code := -1; Api.message := MSG_API_MISSING_PASSWORD |},
                []), wt)
          /\ post_clear_hot_searches env (Ok b) wm
            = (({| Api.code := -1; Api.message := MSG_API_MISSING_PASSWORD |},
                []), wm)).
Proof.
  intros env password wt wm Hne.
  assert (Hf : field_of (Some (Some password)) = Some password)
    by (destruct password; [congruence | reflexivity]).
  repeat split.
  - subst password. unfold post_clear_hot_searches. rewrite Hf.
    now rewrite clearHotSearches_sqlite.
  - subst password. unfold post_clear_hot_searches. rewrite Hf.
    now rewrite clearHotSearches_memory.
  - subst password. unfold post_clear_hot_searches. rewrite Hf.
    now rewrite clearHotSearches_sqlite.
  - subst password. unfold post_clear_hot_searches. rewrite Hf.
    now rewrite clearHotSearches_memory.
  - unfold post_clear_hot_searches, clearHotSearches. rewrite Hf.
    apply jsstring_eqb_neq in H. now rewrite H.
  - unfold post_clear_hot_searches, clearHotSearches. rewrite Hf.
    apply jsstring_eqb_neq in H. now rewrite H.
  - destruct H as [<- | [<- | [<- | []]]]; reflexivity.
  - destruct H as [<- | [<- | [<- | []]]]; reflexivity.
Qed.

Lemma X17_clear_endpoint_witness :
  let wt := record_all [(lit "movie", 1)] boot_sqlite in
  let wm := record_all [(lit "movie", 1)] boot_memory in
  lit "admin123" <> []
  /\ lit "admin123" = correctPassword None
  /\ fst (fst (post_clear_hot_searches None
                 (Ok (Some (Some (lit "admin123")))) wt))
     = {| Api.code := 0; Api.message := MSG_CLEARED |}
  /\ fst (fst (post_clear_hot_searches None
                 (Ok (Some (Some (lit "admin123")))) wm))
     = {| Api.code := 0; Api.message := MSG_CLEARED |}
  /\ rows (store (snd (post_clear_hot_searches None
                         (Ok (Some (Some (lit "admin123")))) wt))) = []
  /\ store (snd (post_clear_hot_searches None
                   (Ok (Some (Some (lit "admin123")))) wm)) = [].
Proof.
  assert (Hne : lit "admin123" <> []) by (vm_compute; discriminate).
  split; [exact Hne|]. split; [reflexivity|].
  exact (proj1 (X17_clear_endpoint None (lit "admin123")
                  (record_all [(lit "movie", 1)] boot_sqlite)
                  (record_all [(lit "movie", 1)] boot_memory) Hne) eq_refl).
Defined.

(** ** The trimming branch of the mock *)

Lemma map_delete_filter (k : jsstring) (m : MemoryStore) :
  NoDup (map fst m) ->
  map_delete k m = filter (fun e => negb (jsstring_eqb (fst e) k)) m.
Proof.
  induction m as [|[k' v'] m IH]; cbn; [reflexivity|].
  intro Hnd. inversion Hnd as [|? ? Hnotin Hnd']; subst.
  destruct (jsstring_eqb k' k) eqn:E; cbn.
  - symmetry. apply forallb_filter_id. apply forallb_forall.
    intros [k0 v0] Hin. cbn.
    destruct (jsstring_eqb k0 k) eqn:E0; [|reflexivity].
    apply jsstring_eqb_eq in E, E0. exfalso. apply Hnotin.
    rewrite E, <- E0. now apply (in_map fst m (k0, v0)).
  - f_equal. now apply IH.
Qed.

Lemma filter_filter {A : Type} (p q : A -> bool) (l : list A) :
  filter p (filter q l) = filter (fun x => q x && p x) l.
Proof.
  induction l as [|a l IH]; cbn; [reflexivity|].
  destruct (q a); cbn; [destruct (p a)|]; now rewrite IH.
Qed.

Lemma fold_delete_filter (tail m : MemoryStore) :
  NoDup (map fst m) ->
  fold_left (fun acc e => map_delete (fst e) acc) tail m
  = filter (fun e => negb (existsb (jsstring_eqb (fst e)) (map fst tail))) m.
Proof.
  revert m. induction tail as [|x tail IH]; intros m Hnd; cbn [fold_left].
  - cbn. symmetry. apply forallb_filter_id. now apply forallb_forall.
  - rewrite IH, map_delete_filter by
      (try rewrite map_delete_filter by exact Hnd;
       try apply NoDup_map_filter; exact Hnd).
    rewrite filter_filter. apply filter_ext. intros e. cbn [map existsb].
    now rewrite negb_orb.
Qed.

Lemma entry_leb_total (a b : jsstring * HotSearchItem) :
  item_leb (snd a) (snd b) = true \/ item_leb (snd b) (snd a) = true.
Proof. apply item_leb_total. Qed.

Lemma entry_leb_trans (a b c : jsstring * HotSearchItem) :
  item_leb (snd a) (snd b) = true -> item_leb (snd b) (snd c) = true ->
  item_leb (snd a) (snd c) = true.
Proof. apply item_leb_trans. Qed.

Lemma js_slice_from {A : Type} (n : nat) (l : list A) :
  (n <= length l)%nat -> js_slice (Z.of_nat n) None l = skipn n l.
Proof.
  intro Hn. unfold js_slice, relative_index.
  destruct (Z.ltb_spec (Z.of_nat n) 0); [lia|].
  rewrite Z.min_l by lia. rewrite Nat2Z.id.
  apply firstn_all2. rewrite length_skipn. lia.
Qed.

(** X18. The last DELETE branch of the mock, when a text reaches it, trims
    the store as the durable clean-up does: on a store that holds each key
    once and for a limit that is not negative, [run(limit)] leaves
    [min(size, limit)] entries, all of them entries of the store, reports
    [max(0, size - limit)] changes, and every entry left ranks at or
    before every entry deleted. *)
Theorem X18_mock_trim_branch :
  forall (m : MemoryStore) (limit : Z),
    NoDup (map fst m) -> 0 <= limit ->
    let m' := fst (mem_trim_run [JNum limit] m) in
    snd (mem_trim_run [JNum limit] m)
      = Some (Z.max 0 (Z.of_nat (length m) - limit))
    /\ Z.of_nat (length m') = Z.min (Z.of_nat (length m)) limit
    /\ incl m' m
    /\ forall a b, In a m' -> In b m -> ~ In b m' ->
                   ranked_before (snd a) (snd b).
Proof.
  intros m limit Hnd Hl m'. subst m'. unfold mem_trim_run. cbn [fst snd].
  unfold js_sort.
  rewrite (stable_sort_ext _ (fun a b => item_leb (snd a) (snd b)) m)
    by (intros a b; apply compareItems_leb).
  set (entries := stable_sort (fun a b => item_leb (snd a) (snd b)) m).
  assert (Hlen : length entries = length m) by apply stable_sort_length.
  rewrite Hlen. split; [reflexivity|].
  destruct (Z.ltb_spec limit (Z.of_nat (length m))) as [Hlt | Hge].
  2:{ split; [lia|]. split; [apply incl_refl|]. intros a b _ Hb Hnb.
      now destruct Hnb. }
  set (n := Z.to_nat limit).
  assert (Hn : (n <= length entries)%nat) by lia.
  replace limit with (Z.of_nat n) by lia.
  rewrite js_slice_from by exact Hn.
  rewrite fold_delete_filter by exact Hnd.
  set (keep := fun e : jsstring * HotSearchItem =>
                 negb (existsb (jsstring_eqb (fst e))
                               (map fst (skipn n entries)))).
  assert (Hperm : Permutation entries m) by apply stable_sort_perm.
  assert (Hnde : NoDup (map fst entries)).
  { apply (Permutation_NoDup (l := map fst m)); [|exact Hnd].
    apply Permutation_map. now symmetry. }
  assert (Hsplit : entries = firstn n entries ++ skipn n entries)
    by (symmetry; apply firstn_skipn).
  assert (Hkeep : forall e, In e m ->
                            (keep e = true <-> In e (firstn n entries))).
  { intros e He. assert (Hin : In e entries)
      by now apply (Permutation_in _ (Permutation_sym Hperm)).
    unfold keep. rewrite negb_true_iff. split.
    - intro Hk. rewrite Hsplit in Hin.
      apply in_app_or in Hin as [Hin | Hin]; [exact Hin|].
      assert (existsb (jsstring_eqb (fst e)) (map fst (skipn n entries))
              = true); [|congruence].
      apply existsb_exists. exists (fst e).
      split; [now apply in_map | apply jsstring_eqb_refl].
    - intro Hhead.
      destruct (existsb _ _) eqn:Hex; [|reflexivity]. exfalso.
      apply existsb_exists in Hex as (k & Hk & Ek).
      apply jsstring_eqb_eq in Ek. subst k.
      apply in_map_iff in Hk as (e' & Ee & Hin').
      assert (e' = e).
      { apply (NoDup_map_inj fst entries); auto.
        rewrite Hsplit. apply in_or_app. now right. }
      subst e'. apply NoDup_map_inv in Hnde. rewrite Hsplit in Hnde.
      apply NoDup_app_remove_l in Hnde as Hnt.
      clear - Hnde Hhead Hin'.
      induction (firstn n entries) as [|x l IH]; [easy|].
      cbn in Hnde. inversion Hnde as [|? ? Hx Hrest]; subst.
      destruct Hhead as [-> | Hhead]; [|now apply IH].
      apply Hx. apply in_or_app. now right. }
  assert (Hm'len : length (filter keep m) = n).
  { assert (Hp : Permutation (filter keep m) (firstn n entries)).
    { apply NoDup_Permutation.
      - apply NoDup_filter. now apply NoDup_map_inv in Hnd.
      - apply NoDup_map_inv in Hnde. rewrite Hsplit in Hnde.
        now apply NoDup_app_remove_r in Hnde.
      - intro e. rewrite filter_In. split.
        + intros [He Hk]. now apply (Hkeep e He).
        + intro Hh. assert (He : In e m).
          { apply (Permutation_in _ Hperm). rewrite Hsplit.
            apply in_or_app. now left. }
          split; [exact He | now apply (Hkeep e He)]. }
    rewrite (Permutation_length Hp), length_firstn. lia. }
  split; [rewrite Hm'len; lia|].
  split; [intros e He; now apply filter_In in He|].
  intros a b Ha Hb Hnb. apply filter_In in Ha as [Ha Hka].
  apply (Hkeep a Ha) in Hka.
  assert (Hbt : In b (skipn n entries)).
  { assert (Hin : In b entries)
      by now apply (Permutation_in _ (Permutation_sym Hperm)).
    rewrite Hsplit in Hin. apply in_app_or in Hin as [Hin | Hin]; [|exact Hin].
    exfalso. apply Hnb. apply filter_In. split; [exact Hb|].
    now apply (Hkeep b Hb). }
  apply item_leb_ranked.
  apply (StronglySorted_split
           (fun x y => item_leb (snd x) (snd y) = true) n entries); auto.
  apply (stable_sort_StronglySorted
           (fun x y => item_leb (snd x) (snd y))).
  - intros x y. apply entry_leb_total.
  - intros x y z. apply entry_leb_trans.
Qed.

Lemma X18_mock_trim_branch_witness :
  let m := store (record_all [(lit "movie-x", 1); (lit "movie-y", 2);
                              (lit "movie-x", 3); (lit "movie-z", 4)]
                    boot_memory) in
  let m' := fst (mem_trim_run [JNum 2] m) in
  (NoDup (map fst m) /\ 0 <= 2)
  /\ run (mem_prepare (lit "DELETE FROM hot_searches WHERE score < ?"))
     = Some mem_trim_run
  /\ snd (mem_trim_run [JNum 2] m)
     = Some (Z.max 0 (Z.of_nat (length m) - 2))
  /\ Z.of_nat (length m') = Z.min (Z.of_nat (length m)) 2
  /\ incl m' m
  /\ forall a b, In a m' -> In b m -> ~ In b m' ->
                 ranked_before (snd a) (snd b).
Proof.
  assert (Hnd : NoDup (map fst (store (record_all
                  [(lit "movie-x", 1); (lit "movie-y", 2);
                   (lit "movie-x", 3); (lit "movie-z", 4)] boot_memory)))).
  { assert (E : nodup (list_eq_dec N.eq_dec)
                  (map fst (store (record_all
                     [(lit "movie-x", 1); (lit "movie-y", 2);
                      (lit "movie-x", 3); (lit "movie-z", 4)] boot_memory)))
                = map fst (store (record_all
                     [(lit "movie-x", 1); (lit "movie-y", 2);
                      (lit "movie-x", 3); (lit "movie-z", 4)] boot_memory)))
      by (vm_compute; reflexivity).
    rewrite <- E. apply NoDup_nodup. }
  split; [split; [exact Hnd | lia]|].
  split; [vm_compute; reflexivity|].
  exact (X18_mock_trim_branch _ 2 Hnd ltac:(lia)).
Defined.

(** ** The hot-search panel *)

Lemma firstn_exact {A : Type} (k : Z) (l : list A) :
  0 <= k <= Z.of_nat (length l) ->
  js_slice 0 (Some k) l = firstn (Z.to_nat k) l.
Proof. intro Hk. rewrite js_slice_from_0. apply firstn_clamped. lia. Qed.

Lemma mixed_row_items (allSearches : list HotSearchItem) (cat : Category.t)
  (n : nat) :
  Category.maxDisplay cat = Z.of_nat n ->
  length (Category.fallback cat) = n ->
  let real := firstn n (filter (in_category cat) allSearches) in
  Categorized.items (mixed_row allSearches cat)
  = real ++ map placeholder (firstn (n - length real) (Category.fallback cat)).
Proof.
  intros Hmax Hfb real. subst real. unfold mixed_row. cbn [Categorized.items].
  rewrite Hmax. set (realItems := filter (in_category cat) allSearches).
  destruct (Z.ltb_spec (Z.of_nat (length realItems)) (Z.of_nat n)) as [Hlt | Hge].
  - rewrite firstn_all2 by lia. f_equal. f_equal.
    rewrite firstn_exact by lia. f_equal. lia.
  - rewrite js_slice_from_0, firstn_clamped by lia. rewrite Nat2Z.id.
    rewrite length_firstn, Nat.min_l by lia. rewrite Nat.sub_diag. cbn.
    now rewrite app_nil_r.
Qed.

Lemma fallback_row_items (cat : Category.t) (n : nat) :
  length (Category.fallback cat) = n ->
  Categorized.items (fallback_row cat)
  = firstn n (filter (in_category cat) [])
    ++ map placeholder
         (firstn (n - length (firstn n (filter (in_category cat) [])))
                 (Category.fallback cat)).
Proof.
  intro Hfb. cbn. rewrite firstn_nil. cbn. rewrite Nat.sub_0_r.
  rewrite firstn_all2 by lia. reflexivity.
Qed.

Lemma CATEGORIES_shape :
  Forall (fun cat => Category.maxDisplay cat = 6
                     /\ length (Category.fallback cat) = 6%nat) CATEGORIES.
Proof. repeat constructor. Qed.

Lemma Forall2_map_r {A B : Type} (Q : A -> B -> Prop) (P : A -> Prop)
  (f : A -> B) (l : list A) :
  Forall P l -> (forall a, P a -> Q a (f a)) -> Forall2 Q l (map f l).
Proof.
  intros HP HQ. induction HP; cbn; constructor; auto.
Qed.

(** X19. Whatever the API returned, the panel shows the six categories in
    their fixed order and every row holds exactly six entries: the first
    six returned searches that belong to the category, in the order
    returned, followed by placeholder terms taken from the start of the
    category's fallback list, each with score 0. *)
Theorem X19_panel_rows :
  forall allSearches : list HotSearchItem,
    Forall2
      (fun cat row =>
         Categorized.key row = Category.key cat
         /\ Categorized.label row = Category.label cat
         /\ length (Categorized.items row) = 6%nat
         /\ exists pads,
              Categorized.items row
              = firstn 6 (filter (in_category cat) allSearches)
                ++ map placeholder pads
              /\ is_prefix pads (Category.fallback cat))
      CATEGORIES (categorizedData allSearches).
Proof.
  intro allSearches. unfold categorizedData.
  assert (Hrow : forall cat,
            Category.maxDisplay cat = 6
            /\ length (Category.fallback cat) = 6%nat ->
            forall items,
              items = firstn 6 (filter (in_category cat) allSearches)
                      ++ map placeholder
                           (firstn (6 - length (firstn 6
                                      (filter (in_category cat) allSearches)))
                                   (Category.fallback cat)) ->
              length items = 6%nat
              /\ exists pads,
                   items = firstn 6 (filter (in_category cat) allSearches)
                           ++ map placeholder pads
                   /\ is_prefix pads (Category.fallback cat)).
  { intros cat [Hmax Hfb] items ->. split.
    - rewrite length_app, length_map, !length_firstn, Hfb.
      set (k := length (filter (in_category cat) allSearches)). lia.
    - eexists. split; [reflexivity | apply firstn_is_prefix]. }
  destruct (length allSearches =? 0)%nat eqn:Hempty.
  - apply Nat.eqb_eq, length_zero_iff_nil in Hempty. subst allSearches.
    apply (Forall2_map_r _ _ _ _ CATEGORIES_shape).
    intros cat Hcat. split; [reflexivity|]. split; [reflexivity|].
    apply (Hrow cat Hcat). apply fallback_row_items. apply Hcat.
  - apply (Forall2_map_r _ _ _ _ CATEGORIES_shape).
    intros cat Hcat. split; [reflexivity|]. split; [reflexivity|].
    apply (Hrow cat Hcat).
    apply (mixed_row_items allSearches cat 6); apply Hcat.
Qed.

(** ** Small database files *)

(** X20. [getDatabaseSize] reports an existing database file as 0
    exactly when it is smaller than 5243 bytes: sizes are rounded to
    hundredths of a megabyte. *)
Theorem X20_small_file_reads_zero :
  forall size : N,
    (getDatabaseSize {| existsSync := true; statSync := Some size |} == 0)%Q
    <-> (size <= 5242)%N.
Proof.
  intro size. unfold getDatabaseSize, Math_round. cbn [existsSync statSync].
  set (x := ((inject_Z (Z.of_N size) / inject_Z (1024 * 1024)
              * inject_Z 100 + (1 # 2)))%Q).
  assert (Hx : x = (Z.of_N size * 1 * 100 * 2 + 1048576 # 2097152)%Q).
  { subst x. unfold Qplus, Qmult, Qdiv, Qinv, inject_Z. cbn. reflexivity. }
  rewrite Hx. unfold Qfloor.
  set (n := Z.of_N size * 1 * 100 * 2 + 1048576).
  assert (Hq : (inject_Z (n / 2097152) / inject_Z 100 == 0)%Q
               <-> n / 2097152 = 0).
  { unfold Qeq, Qdiv, Qmult, Qinv, inject_Z. cbn. lia. }
  rewrite Hq, Z.div_small_iff by lia. subst n. lia.
Qed.

(** ** When recording changes nothing *)

Lemma trimStart_whitespace (s : jsstring) :
  Forall (fun c => isWhiteSpace c = true) s -> trimStart s = [].
Proof.
  induction 1 as [|c s Hc Hs IH]; cbn; [reflexivity|]. now rewrite Hc.
Qed.

Lemma whitespace_isBlank (t : jsstring) :
  Forall (fun c => isWhiteSpace c = true) t -> isBlank t = true.
Proof.
  intro Hw. unfold isBlank. destruct t as [|c t]; [reflexivity|].
  unfold trim, trimEnd. rewrite (trimStart_whitespace _ Hw). reflexivity.
Qed.

Lemma touch_differs (e : HotSearchItem) (now : Z) : touch e now <> e.
Proof.
  intro E. apply (f_equal score) in E. cbn in E. lia.
Qed.

Lemma mem_upsert_changes (t : jsstring) (now : Z) (m : MemoryStore) :
  mem_upsert t now m <> m.
Proof.
  intro E. pose proof (mem_upsert_same t now m) as Hs. rewrite E in Hs.
  destruct (map_get t m) as [e|]; [|discriminate].
  cbn in Hs. injection Hs as Hs. symmetry in Hs. now apply touch_differs in Hs.
Qed.

(** X21. On the memory fallback, [recordSearch] leaves the store as it
    was exactly for the terms that consist of whitespace only (the empty
    term included) or contain a moderation keyword in some letter case;
    every other term changes the store. *)
Theorem X21_fallback_noop_terms :
  forall (t : jsstring) (now : Z) (w : World MemoryStore),
    store (after (recordSearch t now) w) = store w
    <-> (Forall (fun c => isWhiteSpace c = true) t
         \/ exists k, In k keywords /\ contains_ci k t).
Proof.
  intros t now w. split.
  - intro E. destruct (isBlank t) eqn:Hb.
    { left. now apply isBlank_whitespace. }
    destruct (isForbidden t) eqn:Hf.
    { right. now apply isForbidden_spec. }
    unfold after in E. rewrite recordSearch_memory in E by assumption.
    cbn in E. now apply mem_upsert_changes in E.
  - intros [Hw | Hk]; apply recordSearch_rejected.
    + left. now apply whitespace_isBlank.
    + right. now apply isForbidden_spec.
Qed.

(** ** Deleting, then recording again *)

Lemma record_below_capacity (t : jsstring) (now : Z) (w : World Table) :
  isBlank t = false -> isForbidden t = false ->
  (length (rows (store w)) < 50)%nat ->
  rows (store (after (recordSearch t now) w))
  = rows (sqlite_upsert t now (store w)).
Proof.
  intros Hb Hf Hlen. destruct (recordSearch_sqlite w t now Hb Hf) as [-> _].
  apply sqlite_cleanup_small. unfold sqlite_upsert, sqlite_upsert_run.
  destruct (has_term t (rows (store w))); cbn [fst rows].
  - rewrite length_map. lia.
  - rewrite length_app. cbn. lia.
Qed.

(** X22. Deleting a term forgets its history: if an administrator deletes
    a term with the right password and the term is recorded again, its
    record starts over with score 1 and the new time as [createdAt] and
    [lastSearched], on either handle (the memory store holding each key
    once, the table being below its capacity). *)
Theorem X22_delete_then_record_starts_over :
  forall (env : option jsstring) (t : jsstring) (now : Z)
         (wt : World Table) (wm : World MemoryStore),
    isBlank t = false -> isForbidden t = false ->
    NoDup (map fst (store wm)) ->
    (length (rows (store wt)) < 50)%nat ->
    let wt' := after (recordSearch t now)
                 (after (deleteHotSearch env t (correctPassword env)) wt) in
    let wm' := after (recordSearch t now)
                 (after (deleteHotSearch env t (correctPassword env)) wm) in
    table_lookup t (store wt') = Some (new_item t now)
    /\ map_get t (store wm') = Some (new_item t now).
Proof.
  intros env t now wt wm Hb Hf Hnd Hlen wt' wm'. subst wt' wm'. split.
  - set (w1 := after (deleteHotSearch env t (correctPassword env)) wt).
    assert (Hrows : rows (store w1)
                    = filter (fun r => negb (jsstring_eqb (SqlRow.term r) t))
                             (rows (store wt))).
    { subst w1. unfold after. rewrite deleteHotSearch_sqlite.
      now destruct (has_term t (rows (store wt))). }
    assert (Hnone : table_lookup t (store w1) = None).
    { unfold table_lookup. rewrite Hrows. cbn.
      now rewrite delete_rows_lookup_same. }
    assert (Hlen1 : (length (rows (store w1)) < 50)%nat).
    { rewrite Hrows.
      pose proof (filter_length_le
                    (fun r => negb (jsstring_eqb (SqlRow.term r) t))
                    (rows (store wt))). lia. }
    unfold table_lookup at 1.
    rewrite (record_below_capacity t now w1 Hb Hf Hlen1).
    fold (table_lookup t (sqlite_upsert t now (store w1))).
    now rewrite sqlite_upsert_same, Hnone.
  - set (w1 := after (deleteHotSearch env t (correctPassword env)) wm).
    assert (Hstore : store w1 = map_delete t (store wm)).
    { subst w1. unfold after. rewrite deleteHotSearch_memory.
      now destruct (map_has t (store wm)). }
    unfold after at 1. rewrite recordSearch_memory by assumption.
    cbn [snd store]. rewrite mem_upsert_same, Hstore.
    now rewrite map_delete_same.
Qed.

Lemma X22_delete_then_record_starts_over_witness :
  let calls := [(lit "movie", 1); (lit "movie", 2); (lit "book", 3)] in
  let wt := record_all calls boot_sqlite in
  let wm := record_all calls boot_memory in
  let wt' := after (recordSearch (lit "movie") 9)
               (after (deleteHotSearch None (lit "movie")
                         (correctPassword None)) wt) in
  let wm' := after (recordSearch (lit "movie") 9)
               (after (deleteHotSearch None (lit "movie")
                         (correctPassword None)) wm) in
  (isBlank (lit "movie") = false /\ isForbidden (lit "movie") = false
   /\ NoDup (map fst (store wm))
   /\ (length (rows (store wt)) < 50)%nat)
  /\ table_lookup (lit "movie") (store wt') = Some (new_item (lit "movie") 9)
  /\ map_get (lit "movie") (store wm') = Some (new_item (lit "movie") 9).
Proof.
  assert (Hnd : NoDup (map fst (store (record_all
                  [(lit "movie", 1); (lit "movie", 2); (lit "book", 3)]
                  boot_memory)))).
  { assert (E : nodup (list_eq_dec N.eq_dec)
                  (map fst (store (record_all
                     [(lit "movie", 1); (lit "movie", 2); (lit "book", 3)]
                     boot_memory)))
                = map fst (store (record_all
                     [(lit "movie", 1); (lit "movie", 2); (lit "book", 3)]
                     boot_memory)))
      by (vm_compute; reflexivity).
    rewrite <- E. apply NoDup_nodup. }
  assert (Hlen : (length (rows (store (record_all
                    [(lit "movie", 1%Z); (lit "movie", 2%Z);
                     (lit "book", 3%Z)] boot_sqlite))) < 50)%nat)
    by (vm_compute; lia).
  split; [exact (conj eq_refl (conj eq_refl (conj Hnd Hlen)))|].
  exact (X22_delete_then_record_starts_over None (lit "movie") 9 _ _
           eq_refl eq_refl Hnd Hlen).
Defined.
